(** * Math-Interpreter: a shallow embedding of [main.py]

    The program reads one arithmetic expression from standard input,
    tokenizes it with the generator [generate_tokens], parses it by
    recursive descent ([expr], [term], [factor], [power], [atom]) and
    evaluates the tree with [visit].

    Python objects are modelled as follows.
    - a [str] is a list of characters ([ascii]); [main] takes the text of
      standard input as a [string];
    - a Python [float] is an IEEE-754 binary64 value, [spec_float] of the
      standard library with [prec = 53] and [emax = 1024]; [+], [-] and [*]
      are the IEEE operations, [/] raises on a zero divisor, and [**]
      follows CPython's [float_pow], up to the call of the C library's
      [pow], of which only the exact results are modelled;
    - an object that is either [None] or a float ([Token.value], the result
      of [visit]) is an [option float];
    - a raised exception ends the computation: functions that can raise
      return a [result];
    - the generator returned by [generate_tokens] is a state machine whose
      state records where the generator is suspended; the parser threads
      that state, as the Python parser shares one generator object;
    - the parser recurses on a budget of [fuel]; [parse] gives it a budget
      that is proved to be enough, so [main] has no fuel argument.  The
      recursion limit of the Python interpreter is not modelled. *)

From Stdlib Require Import ZArith List String Ascii Bool Arith Lia.
From Stdlib Require Import Floats.SpecFloat.
Import ListNotations.

Local Open Scope Z_scope.

(** ** Floats *)

Definition float : Type := spec_float.

Definition prec : Z := 53.
Definition emax : Z := 1024.

(** The float nearest to an integer (ties to even, overflow to infinity). *)
Definition float_of_Z (z : Z) : float := binary_normalize prec emax z 0 false.

(** The integer a float denotes, when it denotes one. *)
Definition float_to_Z (f : float) : option Z :=
  match f with
  | S754_zero _ => Some 0
  | S754_finite s m e =>
      let sign := if s then (-1) else 1 in
      if 0 <=? e then Some (sign * (Zpos m * 2 ^ e))
      else if (Zpos m) mod (2 ^ (- e)) =? 0
           then Some (sign * (Zpos m / 2 ^ (- e)))
           else None
  | _ => None
  end.

(** An object of type [Any] in the program: [None] or a float. *)
Definition pyval : Type := option float.

(** ** Exceptions and results *)

Inductive exn : Type :=
| Exception (msg : string)   (* raise Exception(msg) *)
| AssertionError             (* a failed assert *)
| ZeroDivisionError          (* x / 0.0 and 0.0 ** negative *)
| OverflowError              (* x ** y out of range *)
| TypeError.                 (* arithmetic on None *)

Inductive result (A : Type) : Type :=
| Ok (a : A)
| Raise (e : exn)
| OutOfFuel      (* the recursion budget of the model was too small *)
| Unmodelled.    (* an inexact result of the C library's pow, or a
                    complex number *)

Arguments Ok {A} a.
Arguments Raise {A} e.
Arguments OutOfFuel {A}.
Arguments Unmodelled {A}.

Definition bind {A B : Type} (m : result A) (k : A -> result B) : result B :=
  match m with
  | Ok a => k a
  | Raise e => Raise e
  | OutOfFuel => OutOfFuel
  | Unmodelled => Unmodelled
  end.

Notation "x <- m ;; k" := (bind m (fun x => k))
  (at level 61, m at next level, right associativity).
Notation "' p <- m ;; k" := (bind m (fun p => k))
  (at level 61, p pattern, m at next level, right associativity).

(** ** Tokenizing *)

Inductive TokenType : Type :=
| NUMBER | PLUS | MINUS | STAR | SLASH | CARET | LPAREN | RPAREN | EOF.

Definition TokenType_eqb (a b : TokenType) : bool :=
  match a, b with
  | NUMBER, NUMBER | PLUS, PLUS | MINUS, MINUS | STAR, STAR | SLASH, SLASH
  | CARET, CARET | LPAREN, LPAREN | RPAREN, RPAREN | EOF, EOF => true
  | _, _ => false
  end.

(** [class Token(NamedTuple)]: [value] defaults to [None]. *)
Record Token : Type := mkToken { type : TokenType; value : pyval }.

Definition Token1 (t : TokenType) : Token := mkToken t None.

(** [string.digits] *)
Definition digits : list ascii := list_ascii_of_string "0123456789".

(** [" \n\t"] *)
Definition whitespace : list ascii := [" "%char; "010"%char; "009"%char].

(** [char in s] for a single character [char]. *)
Definition char_in (char : ascii) (s : list ascii) : bool :=
  existsb (Ascii.eqb char) s.

Definition digit_val (c : ascii) : Z := Z.of_nat (nat_of_ascii c) - 48.

(** The integer written by a run of decimal digits. *)
Definition decimal (num : list ascii) : Z :=
  fold_left (fun acc c => 10 * acc + digit_val c) num 0.

(** [float(num)] for a run of decimal digits. *)
Definition float_of_str (num : list ascii) : float := float_of_Z (decimal num).

(** The inner loop of lines 40-43: it extends [num] while the iterator
    gives digits.  It returns [num], the last value bound to [char] and what
    is left of the iterator. *)
Fixpoint take_digits (num : list ascii) (char : ascii) (textiter : list ascii)
  : list ascii * ascii * list ascii :=
  match textiter with
  | [] => (num, char, [])
  | c :: rest =>
      if negb (char_in c digits) then (num, c, rest)
      else take_digits (num ++ [c]) c rest
  end.

(** Where the generator is suspended. *)
Inductive generator : Type :=
| AtLoop (textiter : list ascii)
    (* not started, or suspended at a yield of lines 51-59: the next step is
       the next iteration of the outer loop *)
| AtNumber (char : ascii) (textiter : list ascii).
    (* suspended at the yield of line 44; [num] is not [None] *)

Definition unrecognized (char : ascii) : exn :=
  Exception ("Unrecognized symbol: '" ++ String char "'").

(** Lines 46-61 for the current [char]; [continue] is the rest of the outer
    loop. *)
Definition dispatch (char : ascii) (num_is_None : bool) (textiter : list ascii)
    (continue : result (option (Token * generator)))
  : result (option (Token * generator)) :=
  if char_in char whitespace then continue
  else if Ascii.eqb char "+" then Ok (Some (Token1 PLUS, AtLoop textiter))
  else if Ascii.eqb char "-" then Ok (Some (Token1 MINUS, AtLoop textiter))
  else if Ascii.eqb char "*" then Ok (Some (Token1 STAR, AtLoop textiter))
  else if Ascii.eqb char "/" then Ok (Some (Token1 SLASH, AtLoop textiter))
  else if Ascii.eqb char "^" then Ok (Some (Token1 CARET, AtLoop textiter))
  else if num_is_None then Raise (unrecognized char)
  else continue.

(** The outer loop of [generate_tokens], run up to the next yield.
    [Ok None] is StopIteration. *)
Fixpoint outer_loop (textiter : list ascii)
  : result (option (Token * generator)) :=
  match textiter with
  | [] => Ok None
  | char :: rest =>
      if char_in char digits then
        let '(num, char', rest') := take_digits [char] char rest in
        Ok (Some (mkToken NUMBER (Some (float_of_str num)), AtNumber char' rest'))
      else dispatch char true rest (outer_loop rest)
  end.

(** Resuming the generator. *)
Definition resume (g : generator) : result (option (Token * generator)) :=
  match g with
  | AtLoop textiter => outer_loop textiter
  | AtNumber char textiter => dispatch char false textiter (outer_loop textiter)
  end.

(** [generate_tokens(text)] creates the generator; nothing runs yet. *)
Definition generate_tokens (text : list ascii) : generator := AtLoop text.

(** ** Iterators

    The parser only needs [next(tokens, default)].  [remaining] bounds the
    number of items an iterator can still give; it is what makes the parser
    terminate. *)

Class Iterator (I : Type) : Type := {
  next : I -> result (option (Token * I));
  remaining : I -> nat
}.

(** Every item given makes [remaining] smaller, and [next] itself always
    comes back. *)
Class IteratorLaws (I : Type) `{Iterator I} : Prop := {
  next_remaining : forall i tok i',
    next i = Ok (Some (tok, i')) -> (remaining i' < remaining i)%nat;
  next_returns : forall i, next i <> OutOfFuel
}.

(** [next(tokens, Token(TokenType.EOF))] *)
Definition next_or_EOF {I : Type} `{Iterator I} (tokens : I) : result (Token * I) :=
  match next tokens with
  | Ok (Some (tok, tokens')) => Ok (tok, tokens')
  | Ok None => Ok (Token1 EOF, tokens)
  | Raise e => Raise e
  | OutOfFuel => OutOfFuel
  | Unmodelled => Unmodelled
  end.

(** [list(tokens)], with a budget of [fuel] items. *)
Fixpoint collect {I : Type} `{Iterator I} (fuel : nat) (tokens : I)
  : result (list Token) :=
  match fuel with
  | O => OutOfFuel
  | S fuel =>
      match next tokens with
      | Ok (Some (tok, tokens')) =>
          toks <- collect fuel tokens' ;; Ok (tok :: toks)
      | Ok None => Ok []
      | Raise e => Raise e
      | OutOfFuel => OutOfFuel
      | Unmodelled => Unmodelled
      end
  end.

Definition to_list {I : Type} `{Iterator I} (tokens : I) : result (list Token) :=
  collect (S (remaining tokens)) tokens.

(** *** The generator as an iterator *)

Definition generator_size (g : generator) : nat :=
  match g with
  | AtLoop textiter => 2 * List.length textiter
  | AtNumber _ textiter => 2 * List.length textiter + 1
  end.

(** *** A list of tokens as an iterator: [iter(list)] *)

Definition list_next (l : list Token) : result (option (Token * list Token)) :=
  match l with
  | [] => Ok None
  | tok :: l' => Ok (Some (tok, l'))
  end.

(** ** Parsing *)

Inductive Node : Type :=
| NumberNode (value : pyval)
| BinaryOpNode (left : Node) (op : Token) (right : Node)
| UnaryOpNode (op : Token) (node : Node).

(** [t in (a, b, ...)] on token types *)
Definition type_in (t : TokenType) (ts : list TokenType) : bool :=
  existsb (TokenType_eqb t) ts.

Section Parser.

Context {I : Type} `{Iterator I}.

(** The five mutually recursive functions of the parser ([left_] and
    [right_] are the source's [left] and [right]).  Every call and
    every iteration of a [while] loop takes one unit of [fuel]; the loops are
    [expr_while], [term_while] and [power_while], entered at their test. *)
Fixpoint expr (fuel : nat) (tokens : I) : result (Token * Node * I) :=
  match fuel with
  | O => OutOfFuel
  | S fuel =>
      '(token, left_, tokens) <- term fuel tokens ;;
      expr_while fuel token left_ tokens
  end

with expr_while (fuel : nat) (token : Token) (left_ : Node) (tokens : I)
  : result (Token * Node * I) :=
  match fuel with
  | O => OutOfFuel
  | S fuel =>
      if type_in (type token) [PLUS; MINUS] then
        let optok := token in
        '(token, right_, tokens) <- term fuel tokens ;;
        expr_while fuel token (BinaryOpNode left_ optok right_) tokens
      else Ok (token, left_, tokens)
  end

with term (fuel : nat) (tokens : I) : result (Token * Node * I) :=
  match fuel with
  | O => OutOfFuel
  | S fuel =>
      '(token, left_, tokens) <- factor fuel tokens ;;
      term_while fuel token left_ tokens
  end

with term_while (fuel : nat) (token : Token) (left_ : Node) (tokens : I)
  : result (Token * Node * I) :=
  match fuel with
  | O => OutOfFuel
  | S fuel =>
      if type_in (type token) [STAR; SLASH] then
        let optok := token in
        '(token, right_, tokens) <- factor fuel tokens ;;
        term_while fuel token (BinaryOpNode left_ optok right_) tokens
      else Ok (token, left_, tokens)
  end

with factor (fuel : nat) (tokens : I) : result (Token * Node * I) :=
  match fuel with
  | O => OutOfFuel
  | S fuel =>
      '(token, tokens) <- next_or_EOF tokens ;;
      if type_in (type token) [PLUS; MINUS] then
        let optok := token in
        '(token, right_, tokens) <- factor fuel tokens ;;
        Ok (token, UnaryOpNode optok right_, tokens)
      else power fuel tokens token
  end

with power (fuel : nat) (tokens : I) (token : Token) : result (Token * Node * I) :=
  match fuel with
  | O => OutOfFuel
  | S fuel =>
      '(token, left_, tokens) <- atom fuel tokens token ;;
      power_while fuel token left_ tokens
  end

with power_while (fuel : nat) (token : Token) (left_ : Node) (tokens : I)
  : result (Token * Node * I) :=
  match fuel with
  | O => OutOfFuel
  | S fuel =>
      if TokenType_eqb (type token) CARET then
        let optok := token in
        '(token, right_, tokens) <- factor fuel tokens ;;
        power_while fuel token (BinaryOpNode left_ optok right_) tokens
      else Ok (token, left_, tokens)
  end

with atom (fuel : nat) (tokens : I) (token : Token) : result (Token * Node * I) :=
  match fuel with
  | O => OutOfFuel
  | S fuel =>
      if TokenType_eqb (type token) NUMBER then
        let num := token in
        '(token, tokens) <- next_or_EOF tokens ;;
        Ok (token, NumberNode (value num), tokens)
      else if TokenType_eqb (type token) LPAREN then
        '(token, result, tokens) <- expr fuel tokens ;;
        if negb (TokenType_eqb (type token) RPAREN) then
          Raise (Exception "Missing )")
        else
          '(token, tokens) <- next_or_EOF tokens ;;
          Ok (token, result, tokens)
      else Raise (Exception "Error")
  end.

(** Fuel that is always enough for [expr] on [tokens]. *)
Definition expr_fuel (tokens : I) : nat := 7 * remaining tokens + 7.

(** [expr(tokens)] *)
Definition parse (tokens : I) : result (Token * Node * I) :=
  expr (expr_fuel tokens) tokens.

End Parser.

(** ** Interpreting *)

Definition is_zero (f : float) : bool :=
  match f with S754_zero _ => true | _ => false end.

Definition is_nan (f : float) : bool :=
  match f with S754_nan => true | _ => false end.

Definition is_infinity (f : float) : bool :=
  match f with S754_infinity _ => true | _ => false end.

Definition one : float := float_of_Z 1.

(** The C macro [DOUBLE_IS_ODD_INTEGER] of CPython's [float_pow]. *)
Definition is_odd_integer (f : float) : bool :=
  match float_to_Z f with
  | Some n => Z.odd n
  | None => false
  end.

(** [pow(iv, iw)] of the C library for a finite [iv > 0] given by [m * 2^e]
    and a finite [iw] that is not zero, followed by CPython's check of
    [errno].  The model gives the result where it is an exactly representable
    power with a positive integer exponent (there every correct [pow] agrees)
    and raises OverflowError where the power is out of range. *)
Definition libm_pow (m : positive) (e : Z) (iw : float) : result float :=
  match float_to_Z iw with
  | Some n =>
      if 0 <? n then
        match binary_normalize prec emax (Zpos m ^ n) (e * n) false with
        | S754_infinity _ => Raise OverflowError
        | S754_finite s' m' e' =>
            if (if e * n <=? e'
                then Zpos m' * 2 ^ (e' - e * n) =? Zpos m ^ n
                else Zpos m' =? Zpos m ^ n * 2 ^ (e * n - e'))
            then Ok (S754_finite s' m' e')
            else Unmodelled
        | _ => Unmodelled
        end
      else Unmodelled
  | None => Unmodelled
  end.

(** [iv ** iw] on floats, after CPython's [float_pow]. *)
Definition float_pow (iv iw : float) : result float :=
  if is_zero iw then Ok one
  else if is_nan iv then Ok iv
  else if is_nan iw then Ok (if SFeqb iv one then one else iw)
  else if is_infinity iw then
    let iv := SFabs iv in
    if SFeqb iv one then Ok one
    else if Bool.eqb (SFltb (S754_zero false) iw) (SFltb one iv)
         then Ok (SFabs iw)
         else Ok (S754_zero false)
  else if is_infinity iv then
    let iw_is_odd := is_odd_integer iw in
    if SFltb (S754_zero false) iw
    then Ok (if iw_is_odd then iv else SFabs iv)
    else Ok (if iw_is_odd
             then (if SFltb iv (S754_zero false)
                   then S754_zero true else S754_zero false)
             else S754_zero false)
  else if is_zero iv then
    let iw_is_odd := is_odd_integer iw in
    if SFltb iw (S754_zero false) then Raise ZeroDivisionError
    else Ok (if iw_is_odd then iv else S754_zero false)
  else
    match iv with
    | S754_finite s m e =>
        if s && negb (match float_to_Z iw with Some _ => true | None => false end)
        then Unmodelled   (* a complex result *)
        else
          let negate_result := s && is_odd_integer iw in
          if SFeqb (SFabs iv) one
          then Ok (if negate_result then SFopp one else one)
          else
            ix <- libm_pow m e iw ;;
            Ok (if negate_result then SFopp ix else ix)
    | _ => Ok iv
    end.

(** The arithmetic of the evaluator on objects that may be [None]. *)
Definition py_arith (op : float -> float -> result float) (a b : pyval)
  : result pyval :=
  match a, b with
  | Some x, Some y => r <- op x y ;; Ok (Some r)
  | _, _ => Raise TypeError
  end.

Definition float_add (x y : float) : result float := Ok (SFadd prec emax x y).
Definition float_sub (x y : float) : result float := Ok (SFsub prec emax x y).
Definition float_mul (x y : float) : result float := Ok (SFmul prec emax x y).

(** [x / y] raises ZeroDivisionError when [y] is zero. *)
Definition float_div (x y : float) : result float :=
  if is_zero y then Raise ZeroDivisionError else Ok (SFdiv prec emax x y).

Definition py_neg (a : pyval) : result pyval :=
  match a with
  | Some x => Ok (Some (SFopp x))
  | None => Raise TypeError
  end.

(** The three handlers.  [visit] is passed to them, so that [visit] below
    is a structural recursion on the tree.  A handler whose tests on
    [node.op.type] all fail falls off its end and returns [None]. *)
Definition visit_NumberNode (value : pyval) : result pyval := Ok value.

Definition visit_BinaryOpNode (visit : Node -> result pyval)
    (left_ : Node) (op : Token) (right_ : Node) : result pyval :=
  match type op with
  | PLUS => l <- visit left_ ;; r <- visit right_ ;; py_arith float_add l r
  | MINUS => l <- visit left_ ;; r <- visit right_ ;; py_arith float_sub l r
  | STAR => l <- visit left_ ;; r <- visit right_ ;; py_arith float_mul l r
  | SLASH => l <- visit left_ ;; r <- visit right_ ;; py_arith float_div l r
  | CARET => l <- visit left_ ;; r <- visit right_ ;; py_arith float_pow l r
  | _ => Ok None
  end.

Definition visit_UnaryOpNode (visit : Node -> result pyval)
    (op : Token) (node : Node) : result pyval :=
  match type op with
  | PLUS => visit node
  | MINUS => v <- visit node ;; py_neg v
  | _ => Ok None
  end.

(** [visit(node)]: the lookup of ["visit_" + class name] in [globals()]
    finds the handler of each of the three node classes. *)
Fixpoint visit (node : Node) : result pyval :=
  match node with
  | NumberNode value => visit_NumberNode value
  | BinaryOpNode left_ op right_ => visit_BinaryOpNode visit left_ op right_
  | UnaryOpNode op node => visit_UnaryOpNode visit op node
  end.

(** ** The program *)

#[export] Instance generator_Iterator : Iterator generator :=
  {| next := resume; remaining := generator_size |}.

#[export] Instance list_Iterator : Iterator (list Token) :=
  {| next := list_next; remaining := @List.length Token |}.

(** What the program does with its standard streams, in order. *)
Inductive event : Type :=
| Print_str (s : string)    (* print(s) for a string *)
| Print_value (v : pyval)   (* print(value) for the result *)
| Read_stdin.               (* stdin.read() *)

Definition prompt : string := "Press <Ctrl-D> to Terminate input".

(** The lines written to standard output. *)
Definition printed (trace : list event) : list event :=
  filter (fun ev => match ev with Read_stdin => false | _ => true end) trace.

(** [main(stdin)], where [stdin] is all the text that [stdin.read()] returns.
    The result is the trace of events and how the call ends. *)
Definition main (stdin : string) : list event * result unit :=
  let trace := [Print_str prompt] in
  let text := list_ascii_of_string stdin in
  let trace := trace ++ [Read_stdin] in
  match text with
  | [] => (trace, Ok tt)
  | _ =>
      let tokens := generate_tokens text in
      match parse tokens with
      | Ok (last_token, node, _) =>
          if negb (TokenType_eqb (type last_token) EOF)
          then (trace, Raise AssertionError)
          else
            match visit node with
            | Ok value => (trace ++ [Print_value value], Ok tt)
            | Raise e => (trace, Raise e)
            | OutOfFuel => (trace, OutOfFuel)
            | Unmodelled => (trace, Unmodelled)
            end
      | Raise e => (trace, Raise e)
      | OutOfFuel => (trace, OutOfFuel)
      | Unmodelled => (trace, Unmodelled)
      end
  end.

(** * Vocabulary of the properties *)

(** The five binary operators. *)
Definition operator_type (t : TokenType) : bool :=
  type_in t [PLUS; MINUS; STAR; SLASH; CARET].

(** A token carries a payload exactly when it is a NUMBER. *)
Definition payload_ok (tok : Token) : Prop :=
  value tok <> None <-> type tok = NUMBER.

(** The tokenizer yields numbers and the five operators, nothing else. *)
Definition lexed (tok : Token) : Prop :=
  (type tok = NUMBER /\ value tok <> None)
  \/ (operator_type (type tok) = true /\ value tok = None).

(** The operator of a binary node is one of the five binary operators, the
    operator of a unary node is PLUS or MINUS. *)
Fixpoint well_formed (node : Node) : bool :=
  match node with
  | NumberNode _ => true
  | BinaryOpNode l op r =>
      operator_type (type op) && well_formed l && well_formed r
  | UnaryOpNode op n =>
      type_in (type op) [PLUS; MINUS] && well_formed n
  end.

Section ParserVocabulary.

Context {I : Type} `{Iterator I}.

(** A parsing function returns well-formed trees only. *)
Definition returns_well_formed (r : result (Token * Node * I)) : Prop :=
  forall tok node tokens', r = Ok (tok, node, tokens') -> well_formed node = true.

(** A call that returns has taken at least one token ([consumes]) or has not
    given any back ([keeps]). *)
Definition consumes (tokens : I) (r : result (Token * Node * I)) : Prop :=
  forall tok node tokens', r = Ok (tok, node, tokens') ->
    (remaining tokens' < remaining tokens)%nat.

Definition keeps (tokens : I) (r : result (Token * Node * I)) : Prop :=
  forall tok node tokens', r = Ok (tok, node, tokens') ->
    (remaining tokens' <= remaining tokens)%nat.

End ParserVocabulary.

(** The characters the tokenizer has a case for. *)
Definition is_digit (c : ascii) : bool := char_in c digits.
Definition is_space (c : ascii) : bool := char_in c whitespace.
Definition is_operator (c : ascii) : bool :=
  char_in c (list_ascii_of_string "+-*/^").
Definition recognized (c : ascii) : bool :=
  is_digit c || is_space c || is_operator c.

Definition all_digits (text : list ascii) : bool := forallb is_digit text.

(** Draining the generator raises [e]: from the top of the outer loop on
    [rest], and from the yield of a number whose digits are taken from
    [rest]. *)
Definition raises_from_loop (e : exn) (rest : list ascii) : Prop :=
  forall fuel, (2 * List.length rest < fuel)%nat ->
    collect fuel (AtLoop rest) = Raise e.

Definition raises_after_digits (e : exn) (rest : list ascii) : Prop :=
  forall num ch num' ch' rest' fuel,
    take_digits num ch rest = (num', ch', rest') ->
    (2 * List.length rest' + 1 < fuel)%nat ->
    collect fuel (AtNumber ch' rest') = Raise e.

(** Tokens and trees of the examples. *)
Definition number (z : Z) : Token := mkToken NUMBER (Some (float_of_Z z)).
Definition literal (z : Z) : Node := NumberNode (Some (float_of_Z z)).

(** ** Vocabulary of the further properties *)

(** Two results agree: both are values related by [P], or the same
    exception, or the same failure of the model. *)
Definition result_rel {A B : Type} (P : A -> B -> Prop)
    (r1 : result A) (r2 : result B) : Prop :=
  match r1, r2 with
  | Ok a, Ok b => P a b
  | Raise e1, Raise e2 => e1 = e2
  | OutOfFuel, OutOfFuel => True
  | Unmodelled, Unmodelled => True
  | _, _ => False
  end.

Section BisimulationVocabulary.

Context {I1 I2 : Type} {Iter1 : Iterator I1} {Iter2 : Iterator I2}.
Variable R : I1 -> I2 -> Prop.

(** The same item, with related iterators after it. *)
Definition same_item (x : option (Token * I1)) (y : option (Token * I2)) : Prop :=
  match x, y with
  | Some (t1, i1), Some (t2, i2) => t1 = t2 /\ R i1 i2
  | None, None => True
  | _, _ => False
  end.

(** Related iterators give the same items, one after the other. *)
Definition bisimulation : Prop :=
  forall i1 i2, R i1 i2 -> result_rel same_item (next i1) (next i2).

(** The same lookahead token and tree, with related iterators. *)
Definition same_parse (x : Token * Node * I1) (y : Token * Node * I2) : Prop :=
  fst (fst x) = fst (fst y) /\ snd (fst x) = snd (fst y) /\ R (snd x) (snd y).

Definition same_token (x : Token * I1) (y : Token * I2) : Prop :=
  fst x = fst y /\ R (snd x) (snd y).

End BisimulationVocabulary.

(** The generator and the list of its tokens. *)
Definition lists_to (g : generator) (l : list Token) : Prop := to_list g = Ok l.

(** Generators that are resumed alike. *)
Definition resumes_alike (g1 g2 : generator) : Prop := resume g1 = resume g2.

(** The second generator has the character [s] appended to its text; when
    both texts ended in a number, the first is left with its last digit and
    the second with [s]. *)
Definition with_trailing (s : ascii) (g1 g2 : generator) : Prop :=
  match g1, g2 with
  | AtLoop t1, AtLoop t2 => t2 = t1 ++ [s]
  | AtNumber c1 t1, AtNumber c2 t2 =>
      (c1 = c2 /\ t2 = t1 ++ [s])
      \/ (t1 = [] /\ t2 = [] /\ is_digit c1 = true /\ c2 = s)
  | _, _ => False
  end.

(** Every number of the tree has a payload. *)
Fixpoint has_payloads (node : Node) : bool :=
  match node with
  | NumberNode v => match v with Some _ => true | None => false end
  | BinaryOpNode l _ r => has_payloads l && has_payloads r
  | UnaryOpNode _ n => has_payloads n
  end.

(** A float, or an error of the arithmetic. *)
Definition float_or_arith_error (r : result pyval) : Prop :=
  match r with
  | Ok (Some _) => True
  | Raise ZeroDivisionError => True
  | Raise OverflowError => True
  | Unmodelled => True
  | _ => False
  end.

(** The lookahead token that a parsing function returns has none of the
    types [ts]. *)
Definition lookahead_not {I : Type} (ts : list TokenType)
    (r : result (Token * Node * I)) : Prop :=
  forall tok node tokens', r = Ok (tok, node, tokens') ->
    type_in (type tok) ts = false.

(** A token the parser can get from the tokenizer: one that it yields, or
    the EOF token of [next]'s default. *)
Definition from_tokenizer (tok : Token) : Prop := lexed tok \/ tok = Token1 EOF.

(** A parsing function returns a lookahead token of the tokenizer and a tree
    whose numbers have payloads, or raises "Error", or raises what the
    iterator raised. *)
Definition tree_or_error {I : Type} `{Iterator I}
    (r : result (Token * Node * I)) : Prop :=
  match r with
  | Ok (tok, node, _) => from_tokenizer tok /\ has_payloads node = true
  | Raise e => e = Exception "Error" \/ exists i : I, next i = Raise e
  | _ => True
  end.

(** The token of an operator character. *)
Definition operator_token (c : ascii) : Token :=
  if Ascii.eqb c "+" then Token1 PLUS
  else if Ascii.eqb c "-" then Token1 MINUS
  else if Ascii.eqb c "*" then Token1 STAR
  else if Ascii.eqb c "/" then Token1 SLASH
  else Token1 CARET.

(** Token lists and trees of chains: an operand, then pairs of an operator
    token and an operand. *)
Definition chain_tokens (ops : list (Token * pyval)) : list Token :=
  flat_map (fun p => [fst p; mkToken NUMBER (snd p)]) ops.

Definition chain_tree (first : Node) (ops : list (Token * pyval)) : Node :=
  fold_left (fun acc p => BinaryOpNode acc (fst p) (NumberNode (snd p))) ops first.



Definition additive (tok : Token) : bool := type_in (type tok) [PLUS; MINUS].
Definition multiplicative (tok : Token) : bool := type_in (type tok) [STAR; SLASH].

(** * Properties *)

(** ** The result monad *)

Lemma bind_Ok {A B : Type} (m : result A) (k : A -> result B) (b : B) :
  bind m k = Ok b -> exists a, m = Ok a /\ k a = Ok b.
Proof.
  destruct m as [a | e | |]; simpl; try discriminate.
  intros Hk. exists a. split; [reflexivity | exact Hk].
Qed.

Lemma bind_OutOfFuel {A B : Type} (m : result A) (k : A -> result B) :
  m <> OutOfFuel -> (forall a, m = Ok a -> k a <> OutOfFuel) ->
  bind m k <> OutOfFuel.
Proof.
  intros Hm Hk. destruct m as [a | e | |]; simpl.
  - apply Hk. reflexivity.
  - discriminate.
  - now elim Hm.
  - discriminate.
Qed.

(** ** The tokenizer *)

(** What [dispatch] can do: yield an operator token and go back to the loop,
    raise when [num] is [None], or go on with the loop. *)
Lemma dispatch_yield char b textiter continue tok g :
  dispatch char b textiter continue = Ok (Some (tok, g)) ->
  (g = AtLoop textiter /\ value tok = None /\ operator_type (type tok) = true)
  \/ continue = Ok (Some (tok, g)).
Proof.
  unfold dispatch.
  repeat match goal with
         | |- context [if ?c then _ else _] => destruct c
         end;
    intros Heq; try discriminate; try (right; exact Heq);
    injection Heq as <- <-; left; repeat split.
Qed.

Lemma take_digits_length textiter : forall num char num' char' rest',
  take_digits num char textiter = (num', char', rest') ->
  (List.length rest' <= List.length textiter)%nat.
Proof.
  induction textiter as [| c rest IH]; cbn [take_digits List.length];
    intros num char num' char' rest' Heq.
  - injection Heq as _ _ <-. simpl. lia.
  - destruct (negb (char_in c digits)).
    + injection Heq as _ _ <-. lia.
    + apply IH in Heq. lia.
Qed.

Lemma outer_loop_remaining textiter : forall tok g,
  outer_loop textiter = Ok (Some (tok, g)) ->
  (generator_size g < 2 * List.length textiter)%nat.
Proof.
  induction textiter as [| char rest IH]; intros tok g Heq.
  - discriminate.
  - cbn [outer_loop] in Heq. destruct (char_in char digits).
    + destruct (take_digits [char] char rest) as [[num char'] rest'] eqn:Htake.
      apply take_digits_length in Htake.
      injection Heq as _ <-. cbn [generator_size List.length]. lia.
    + apply dispatch_yield in Heq. destruct Heq as [[-> _] | Heq].
      * cbn [generator_size List.length]. lia.
      * apply IH in Heq. cbn [List.length]. lia.
Qed.

Lemma resume_remaining g tok g' :
  resume g = Ok (Some (tok, g')) -> (generator_size g' < generator_size g)%nat.
Proof.
  destruct g as [textiter | char textiter]; cbn [resume]; intros Heq.
  - apply outer_loop_remaining in Heq. exact Heq.
  - apply dispatch_yield in Heq. destruct Heq as [[-> _] | Heq].
    + cbn [generator_size]. lia.
    + apply outer_loop_remaining in Heq. cbn [generator_size]. lia.
Qed.

Lemma dispatch_returns char b textiter continue :
  continue <> OutOfFuel -> dispatch char b textiter continue <> OutOfFuel.
Proof.
  intros Hc. unfold dispatch.
  repeat match goal with
         | |- context [if ?c then _ else _] => destruct c
         end; try discriminate; exact Hc.
Qed.

Lemma outer_loop_returns textiter : outer_loop textiter <> OutOfFuel.
Proof.
  induction textiter as [| char rest IH]; cbn [outer_loop].
  - discriminate.
  - destruct (char_in char digits).
    + destruct (take_digits [char] char rest) as [[num char'] rest'].
      discriminate.
    + apply dispatch_returns. exact IH.
Qed.

Lemma resume_returns g : resume g <> OutOfFuel.
Proof.
  destruct g as [textiter | char textiter]; cbn [resume].
  - apply outer_loop_returns.
  - apply dispatch_returns, outer_loop_returns.
Qed.

#[export] Instance generator_IteratorLaws : IteratorLaws generator.
Proof. constructor; [exact resume_remaining | exact resume_returns]. Qed.

#[export] Instance list_IteratorLaws : IteratorLaws (list Token).
Proof.
  constructor.
  - intros [| t l] tok l' Heq; simpl in Heq.
    + discriminate.
    + injection Heq as _ <-. simpl. lia.
  - intros [| t l]; discriminate.
Qed.

Lemma outer_loop_lexed textiter : forall tok g,
  outer_loop textiter = Ok (Some (tok, g)) -> lexed tok.
Proof.
  induction textiter as [| char rest IH]; intros tok g Heq.
  - discriminate.
  - cbn [outer_loop] in Heq. destruct (char_in char digits).
    + destruct (take_digits [char] char rest) as [[num char'] rest'].
      injection Heq as <- _. left. split; [reflexivity | discriminate].
    + apply dispatch_yield in Heq. destruct Heq as [[_ [Hv Ht]] | Heq].
      * right. split; assumption.
      * eapply IH. exact Heq.
Qed.

Lemma resume_lexed g tok g' :
  resume g = Ok (Some (tok, g')) -> lexed tok.
Proof.
  destruct g as [textiter | char textiter]; cbn [resume]; intros Heq.
  - eapply outer_loop_lexed. exact Heq.
  - apply dispatch_yield in Heq. destruct Heq as [[_ [Hv Ht]] | Heq].
    + right. split; assumption.
    + eapply outer_loop_lexed. exact Heq.
Qed.

Lemma lexed_payload_ok tok : lexed tok -> payload_ok tok.
Proof.
  unfold lexed, payload_ok. destruct tok as [t v]; simpl.
  intros [[-> Hv] | [Ht ->]].
  - split; intros _; [reflexivity | exact Hv].
  - split; intros Hc; [now elim Hc | subst t; discriminate].
Qed.

Lemma lexed_not_paren tok :
  lexed tok -> type tok <> LPAREN /\ type tok <> RPAREN /\ type tok <> EOF.
Proof.
  unfold lexed. destruct tok as [t v]; simpl.
  intros [[-> _] | [Ht _]]; repeat split; try discriminate;
    intros ->; discriminate.
Qed.

(** ** The parser *)

Lemma plus_minus_operator t :
  type_in t [PLUS; MINUS] = true -> operator_type t = true.
Proof. destruct t; simpl; intros Ht; try discriminate; reflexivity. Qed.

Lemma star_slash_operator t :
  type_in t [STAR; SLASH] = true -> operator_type t = true.
Proof. destruct t; simpl; intros Ht; try discriminate; reflexivity. Qed.

Lemma caret_operator t :
  TokenType_eqb t CARET = true -> operator_type t = true.
Proof. destruct t; simpl; intros Ht; try discriminate; reflexivity. Qed.

(** Inversion of a successful [bind]: [p] names the value of the first
    computation, [Hm] the equation that gives it. *)
Tactic Notation "bind_inv" hyp(H) "as" simple_intropattern(p) "by" ident(Hm) :=
  apply bind_Ok in H; destruct H as [p [Hm H]].

Ltac split_all := repeat match goal with |- _ /\ _ => split end.

Section ParserFacts.

Context {I : Type} `{Iterator I}.

Lemma parser_well_formed (fuel : nat) :
  (forall tokens, returns_well_formed (expr fuel tokens))
  /\ (forall token l tokens, well_formed l = true ->
        returns_well_formed (expr_while fuel token l tokens))
  /\ (forall tokens, returns_well_formed (term fuel tokens))
  /\ (forall token l tokens, well_formed l = true ->
        returns_well_formed (term_while fuel token l tokens))
  /\ (forall tokens, returns_well_formed (factor fuel tokens))
  /\ (forall tokens token, returns_well_formed (power fuel tokens token))
  /\ (forall token l tokens, well_formed l = true ->
        returns_well_formed (power_while fuel token l tokens))
  /\ (forall tokens token, returns_well_formed (atom fuel tokens token)).
Proof.
  unfold returns_well_formed.
  induction fuel as [| fuel IH].
  - split_all; intros; discriminate.
  - destruct IH as (IHe & IHew & IHt & IHtw & IHf & IHp & IHpw & IHa).
    split_all.
    + (* expr *)
      intros tokens tok node tokens' Heq. cbn [expr] in Heq.
      bind_inv Heq as [[tok1 l1] tokens1] by Hcall.
      eapply IHew; [| exact Heq]. eapply IHt. exact Hcall.
    + (* the loop of expr *)
      intros token l tokens Hl tok node tokens' Heq. cbn [expr_while] in Heq.
      destruct (type_in (type token) [PLUS; MINUS]) eqn:Hop.
      * bind_inv Heq as [[tok1 r1] tokens1] by Hcall.
        eapply IHew; [| exact Heq].
        cbn [well_formed]. rewrite (plus_minus_operator _ Hop), Hl.
        rewrite (IHt _ _ _ _ Hcall). reflexivity.
      * injection Heq as _ <- _. exact Hl.
    + (* term *)
      intros tokens tok node tokens' Heq. cbn [term] in Heq.
      bind_inv Heq as [[tok1 l1] tokens1] by Hcall.
      eapply IHtw; [| exact Heq]. eapply IHf. exact Hcall.
    + (* the loop of term *)
      intros token l tokens Hl tok node tokens' Heq. cbn [term_while] in Heq.
      destruct (type_in (type token) [STAR; SLASH]) eqn:Hop.
      * bind_inv Heq as [[tok1 r1] tokens1] by Hcall.
        eapply IHtw; [| exact Heq].
        cbn [well_formed]. rewrite (star_slash_operator _ Hop), Hl.
        rewrite (IHf _ _ _ _ Hcall). reflexivity.
      * injection Heq as _ <- _. exact Hl.
    + (* factor *)
      intros tokens tok node tokens' Heq. cbn [factor] in Heq.
      bind_inv Heq as [tok1 tokens1] by Hnext.
      destruct (type_in (type tok1) [PLUS; MINUS]) eqn:Hop.
      * bind_inv Heq as [[tok2 r2] tokens2] by Hcall0.
        injection Heq as _ <- _.
        cbn [well_formed]. rewrite Hop. rewrite (IHf _ _ _ _ Hcall0).
        reflexivity.
      * eapply IHp. exact Heq.
    + (* power *)
      intros tokens token tok node tokens' Heq. cbn [power] in Heq.
      bind_inv Heq as [[tok1 l1] tokens1] by Hcall.
      eapply IHpw; [| exact Heq]. eapply IHa. exact Hcall.
    + (* the loop of power *)
      intros token l tokens Hl tok node tokens' Heq. cbn [power_while] in Heq.
      destruct (TokenType_eqb (type token) CARET) eqn:Hop.
      * bind_inv Heq as [[tok1 r1] tokens1] by Hcall.
        eapply IHpw; [| exact Heq].
        cbn [well_formed]. rewrite (caret_operator _ Hop), Hl.
        rewrite (IHf _ _ _ _ Hcall). reflexivity.
      * injection Heq as _ <- _. exact Hl.
    + (* atom *)
      intros tokens token tok node tokens' Heq. cbn [atom] in Heq.
      destruct (TokenType_eqb (type token) NUMBER).
      * bind_inv Heq as [tok1 tokens1] by Hnext.
        injection Heq as _ <- _. reflexivity.
      * destruct (TokenType_eqb (type token) LPAREN); [| discriminate].
        bind_inv Heq as [[tok1 node1] tokens1] by Hcall.
        destruct (negb (TokenType_eqb (type tok1) RPAREN)); [discriminate |].
        bind_inv Heq as [tok2 tokens2] by Hnext.
        injection Heq as _ <- _. eapply IHe. exact Hcall.
Qed.

End ParserFacts.

(** ** Termination of the parser *)

Section ParserTermination.

Context {I : Type} `{IteratorLaws I}.

Lemma next_or_EOF_cases tokens tok tokens' :
  next_or_EOF tokens = Ok (tok, tokens') ->
  (remaining tokens' < remaining tokens)%nat
  \/ (tok = Token1 EOF /\ tokens' = tokens).
Proof.
  unfold next_or_EOF. destruct (next tokens) as [[[t i] |] | e | |] eqn:Hn;
    intros Heq; try discriminate.
  - injection Heq as <- <-. left. eapply next_remaining. exact Hn.
  - injection Heq as <- <-. right. split; reflexivity.
Qed.

Lemma next_or_EOF_returns tokens : next_or_EOF tokens <> OutOfFuel.
Proof.
  unfold next_or_EOF. pose proof (next_returns tokens) as Hn.
  destruct (next tokens) as [[[t i] |] | e | |]; try discriminate.
  now elim Hn.
Qed.

(** With the EOF token in hand, [power] raises. *)
Lemma power_EOF fuel tokens :
  power (S (S fuel)) tokens (Token1 EOF) = Raise (Exception "Error").
Proof. reflexivity. Qed.

Lemma power_EOF_not_Ok fuel tokens r :
  power fuel tokens (Token1 EOF) <> Ok r.
Proof.
  destruct fuel as [| [| fuel]]; try discriminate.
Qed.

Lemma parser_remaining (fuel : nat) :
  (forall tokens, consumes tokens (expr fuel tokens))
  /\ (forall token l tokens, keeps tokens (expr_while fuel token l tokens))
  /\ (forall tokens, consumes tokens (term fuel tokens))
  /\ (forall token l tokens, keeps tokens (term_while fuel token l tokens))
  /\ (forall tokens, consumes tokens (factor fuel tokens))
  /\ (forall tokens token, keeps tokens (power fuel tokens token))
  /\ (forall token l tokens, keeps tokens (power_while fuel token l tokens))
  /\ (forall tokens token, keeps tokens (atom fuel tokens token)).
Proof.
  unfold consumes, keeps.
  induction fuel as [| fuel IH].
  - split_all; intros; discriminate.
  - destruct IH as (IHe & IHew & IHt & IHtw & IHf & IHp & IHpw & IHa).
    split_all.
    + intros tokens tok node tokens' Heq. cbn [expr] in Heq.
      bind_inv Heq as [[tok1 l1] tokens1] by Hcall.
      apply IHt in Hcall. apply IHew in Heq. lia.
    + intros token l tokens tok node tokens' Heq. cbn [expr_while] in Heq.
      destruct (type_in (type token) [PLUS; MINUS]).
      * bind_inv Heq as [[tok1 r1] tokens1] by Hcall.
        apply IHt in Hcall. apply IHew in Heq. lia.
      * injection Heq as _ _ <-. lia.
    + intros tokens tok node tokens' Heq. cbn [term] in Heq.
      bind_inv Heq as [[tok1 l1] tokens1] by Hcall.
      apply IHf in Hcall. apply IHtw in Heq. lia.
    + intros token l tokens tok node tokens' Heq. cbn [term_while] in Heq.
      destruct (type_in (type token) [STAR; SLASH]).
      * bind_inv Heq as [[tok1 r1] tokens1] by Hcall.
        apply IHf in Hcall. apply IHtw in Heq. lia.
      * injection Heq as _ _ <-. lia.
    + intros tokens tok node tokens' Heq. cbn [factor] in Heq.
      bind_inv Heq as [tok1 tokens1] by Hnext.
      apply next_or_EOF_cases in Hnext. destruct Hnext as [Hlt | [-> ->]].
      * destruct (type_in (type tok1) [PLUS; MINUS]).
        -- bind_inv Heq as [[tok2 r2] tokens2] by Hcall.
           injection Heq as _ _ <-. apply IHf in Hcall. lia.
        -- apply IHp in Heq. lia.
      * cbn in Heq. now apply power_EOF_not_Ok in Heq.
    + intros tokens token tok node tokens' Heq. cbn [power] in Heq.
      bind_inv Heq as [[tok1 l1] tokens1] by Hcall.
      apply IHa in Hcall. apply IHpw in Heq. lia.
    + intros token l tokens tok node tokens' Heq. cbn [power_while] in Heq.
      destruct (TokenType_eqb (type token) CARET).
      * bind_inv Heq as [[tok1 r1] tokens1] by Hcall.
        apply IHf in Hcall. apply IHpw in Heq. lia.
      * injection Heq as _ _ <-. lia.
    + intros tokens token tok node tokens' Heq. cbn [atom] in Heq.
      destruct (TokenType_eqb (type token) NUMBER).
      * bind_inv Heq as [tok1 tokens1] by Hnext.
        injection Heq as _ _ <-.
        apply next_or_EOF_cases in Hnext. destruct Hnext as [Hlt | [_ ->]]; lia.
      * destruct (TokenType_eqb (type token) LPAREN); [| discriminate].
        bind_inv Heq as [[tok1 node1] tokens1] by Hcall.
        destruct (negb (TokenType_eqb (type tok1) RPAREN)); [discriminate |].
        bind_inv Heq as [tok2 tokens2] by Hnext.
        injection Heq as _ _ <-. apply IHe in Hcall.
        apply next_or_EOF_cases in Hnext. destruct Hnext as [Hlt | [_ ->]]; lia.
Qed.

(** Enough fuel: no parsing function runs out of it.  The bounds follow the
    call graph: a call made with the same tokens needs one unit less, and a
    call made after a token was taken needs seven less. *)
Lemma parser_fuel (fuel : nat) :
  (forall tokens, (7 * remaining tokens + 7 <= fuel)%nat ->
     expr fuel tokens <> OutOfFuel)
  /\ (forall token l tokens, (7 * remaining tokens + 6 <= fuel)%nat ->
        expr_while fuel token l tokens <> OutOfFuel)
  /\ (forall tokens, (7 * remaining tokens + 5 <= fuel)%nat ->
        term fuel tokens <> OutOfFuel)
  /\ (forall token l tokens, (7 * remaining tokens + 4 <= fuel)%nat ->
        term_while fuel token l tokens <> OutOfFuel)
  /\ (forall tokens, (7 * remaining tokens + 3 <= fuel)%nat ->
        factor fuel tokens <> OutOfFuel)
  /\ (forall tokens token, (7 * remaining tokens + 9 <= fuel)%nat ->
        power fuel tokens token <> OutOfFuel)
  /\ (forall token l tokens, (7 * remaining tokens + 4 <= fuel)%nat ->
        power_while fuel token l tokens <> OutOfFuel)
  /\ (forall tokens token, (7 * remaining tokens + 8 <= fuel)%nat ->
        atom fuel tokens token <> OutOfFuel).
Proof.
  induction fuel as [| fuel IH].
  - split_all; intros; lia.
  - destruct IH as (IHe & IHew & IHt & IHtw & IHf & IHp & IHpw & IHa).
    destruct (parser_remaining fuel)
      as (Re & Rew & Rt & Rtw & Rf & Rp & Rpw & Ra).
    split_all.
    + intros tokens Hfuel. cbn [expr]. apply bind_OutOfFuel.
      * apply IHt. lia.
      * intros [[tok1 l1] tokens1] Hcall. apply Rt in Hcall.
        apply IHew. lia.
    + intros token l tokens Hfuel. cbn [expr_while].
      destruct (type_in (type token) [PLUS; MINUS]); [| discriminate].
      apply bind_OutOfFuel.
      * apply IHt. lia.
      * intros [[tok1 r1] tokens1] Hcall. apply Rt in Hcall.
        apply IHew. lia.
    + intros tokens Hfuel. cbn [term]. apply bind_OutOfFuel.
      * apply IHf. lia.
      * intros [[tok1 l1] tokens1] Hcall. apply Rf in Hcall.
        apply IHtw. lia.
    + intros token l tokens Hfuel. cbn [term_while].
      destruct (type_in (type token) [STAR; SLASH]); [| discriminate].
      apply bind_OutOfFuel.
      * apply IHf. lia.
      * intros [[tok1 r1] tokens1] Hcall. apply Rf in Hcall.
        apply IHtw. lia.
    + intros tokens Hfuel. cbn [factor]. apply bind_OutOfFuel.
      * apply next_or_EOF_returns.
      * intros [tok1 tokens1] Hnext.
        apply next_or_EOF_cases in Hnext. destruct Hnext as [Hlt | [-> ->]].
        -- destruct (type_in (type tok1) [PLUS; MINUS]).
           ++ apply bind_OutOfFuel.
              ** apply IHf. lia.
              ** intros [[tok2 r2] tokens2] _. discriminate.
           ++ apply IHp. lia.
        -- destruct fuel as [| [| fuel]]; [lia | lia |].
           change (power (S (S fuel)) tokens (Token1 EOF) <> OutOfFuel).
           rewrite power_EOF. discriminate.
    + intros tokens token Hfuel. cbn [power]. apply bind_OutOfFuel.
      * apply IHa. lia.
      * intros [[tok1 l1] tokens1] Hcall. apply Ra in Hcall.
        apply IHpw. lia.
    + intros token l tokens Hfuel. cbn [power_while].
      destruct (TokenType_eqb (type token) CARET); [| discriminate].
      apply bind_OutOfFuel.
      * apply IHf. lia.
      * intros [[tok1 r1] tokens1] Hcall. apply Rf in Hcall.
        apply IHpw. lia.
    + intros tokens token Hfuel. cbn [atom].
      destruct (TokenType_eqb (type token) NUMBER).
      * apply bind_OutOfFuel.
        -- apply next_or_EOF_returns.
        -- intros [tok1 tokens1] _. discriminate.
      * destruct (TokenType_eqb (type token) LPAREN); [| discriminate].
        apply bind_OutOfFuel.
        -- apply IHe. lia.
        -- intros [[tok1 node1] tokens1] _.
           destruct (negb (TokenType_eqb (type tok1) RPAREN)); [discriminate |].
           apply bind_OutOfFuel.
           ++ apply next_or_EOF_returns.
           ++ intros [tok2 tokens2] _. discriminate.
Qed.

(** [parse] always comes back: with a tree or with an exception. *)
Lemma parse_returns (tokens : I) : parse tokens <> OutOfFuel.
Proof.
  unfold parse, expr_fuel.
  destruct (parser_fuel (7 * remaining tokens + 7)) as [He _].
  apply He. lia.
Qed.

(** More fuel does not change a result. *)
Lemma bind_more_fuel {A B : Type} (m m' : result A) (k k' : A -> result B) :
  (m <> OutOfFuel -> m' = m) ->
  (forall a, m = Ok a -> k a <> OutOfFuel -> k' a = k a) ->
  bind m k <> OutOfFuel -> bind m' k' = bind m k.
Proof.
  intros Hm Hk Hb. rewrite Hm.
  - destruct m as [a | e | |]; simpl in *; try reflexivity.
    apply Hk; [reflexivity | exact Hb].
  - intros ->. apply Hb. reflexivity.
Qed.

Lemma parser_more_fuel (fuel : nat) :
  (forall tokens, expr fuel tokens <> OutOfFuel ->
     expr (S fuel) tokens = expr fuel tokens)
  /\ (forall token l tokens, expr_while fuel token l tokens <> OutOfFuel ->
        expr_while (S fuel) token l tokens = expr_while fuel token l tokens)
  /\ (forall tokens, term fuel tokens <> OutOfFuel ->
        term (S fuel) tokens = term fuel tokens)
  /\ (forall token l tokens, term_while fuel token l tokens <> OutOfFuel ->
        term_while (S fuel) token l tokens = term_while fuel token l tokens)
  /\ (forall tokens, factor fuel tokens <> OutOfFuel ->
        factor (S fuel) tokens = factor fuel tokens)
  /\ (forall tokens token, power fuel tokens token <> OutOfFuel ->
        power (S fuel) tokens token = power fuel tokens token)
  /\ (forall token l tokens, power_while fuel token l tokens <> OutOfFuel ->
        power_while (S fuel) token l tokens = power_while fuel token l tokens)
  /\ (forall tokens token, atom fuel tokens token <> OutOfFuel ->
        atom (S fuel) tokens token = atom fuel tokens token).
Proof.
  induction fuel as [| fuel IH].
  - split_all; intros; exfalso; auto.
  - destruct IH as (IHe & IHew & IHt & IHtw & IHf & IHp & IHpw & IHa).
    split_all.
    + intros tokens. cbn [expr]. apply bind_more_fuel.
      * apply IHt.
      * intros [[tok1 l1] tokens1] _. apply IHew.
    + intros token l tokens. cbn [expr_while].
      destruct (type_in (type token) [PLUS; MINUS]); [| reflexivity].
      apply bind_more_fuel.
      * apply IHt.
      * intros [[tok1 r1] tokens1] _. apply IHew.
    + intros tokens. cbn [term]. apply bind_more_fuel.
      * apply IHf.
      * intros [[tok1 l1] tokens1] _. apply IHtw.
    + intros token l tokens. cbn [term_while].
      destruct (type_in (type token) [STAR; SLASH]); [| reflexivity].
      apply bind_more_fuel.
      * apply IHf.
      * intros [[tok1 r1] tokens1] _. apply IHtw.
    + intros tokens. cbn [factor]. apply bind_more_fuel.
      * reflexivity.
      * intros [tok1 tokens1] _.
        destruct (type_in (type tok1) [PLUS; MINUS]).
        -- apply bind_more_fuel.
           ++ apply IHf.
           ++ intros [[tok2 r2] tokens2] _ _. reflexivity.
        -- apply IHp.
    + intros tokens token. cbn [power]. apply bind_more_fuel.
      * apply IHa.
      * intros [[tok1 l1] tokens1] _. apply IHpw.
    + intros token l tokens. cbn [power_while].
      destruct (TokenType_eqb (type token) CARET); [| reflexivity].
      apply bind_more_fuel.
      * apply IHf.
      * intros [[tok1 r1] tokens1] _. apply IHpw.
    + intros tokens token. cbn [atom].
      destruct (TokenType_eqb (type token) NUMBER); [reflexivity |].
      destruct (TokenType_eqb (type token) LPAREN); [| reflexivity].
      apply bind_more_fuel.
      * apply IHe.
      * intros [[tok1 node1] tokens1] _ _. reflexivity.
Qed.

(** [parse] does not depend on the fuel it is given, once that is enough. *)
Lemma parse_any_fuel (tokens : I) (fuel : nat) :
  (expr_fuel tokens <= fuel)%nat -> expr fuel tokens = parse tokens.
Proof.
  intros Hle. induction Hle as [| fuel Hle IH].
  - reflexivity.
  - destruct (parser_more_fuel fuel) as [He _].
    rewrite He; [exact IH |]. rewrite IH. apply parse_returns.
Qed.

End ParserTermination.

(** ** Draining an iterator *)

Section Collect.

Context {I : Type} `{IteratorLaws I}.

Lemma collect_returns (fuel : nat) : forall tokens : I,
  (remaining tokens < fuel)%nat -> collect fuel tokens <> OutOfFuel.
Proof.
  induction fuel as [| fuel IH]; intros tokens Hfuel.
  - lia.
  - cbn [collect]. pose proof (next_returns tokens) as Hn.
    destruct (next tokens) as [[[tok tokens'] |] | e | |] eqn:Hnext;
      try discriminate.
    + apply bind_OutOfFuel.
      * apply IH. apply next_remaining in Hnext. lia.
      * intros toks _. discriminate.
    + now elim Hn.
Qed.

Lemma to_list_returns (tokens : I) : to_list tokens <> OutOfFuel.
Proof. apply collect_returns. lia. Qed.

End Collect.

(** ** Runs of digits *)

(** A digit is neither whitespace nor an operator: after a number that ends
    the text, lines 46-61 do nothing. *)
Lemma dispatch_digit char textiter continue :
  char_in char digits = true ->
  dispatch char false textiter continue = continue.
Proof.
  intros Hd. unfold char_in, digits in Hd. cbn in Hd.
  repeat (apply orb_prop in Hd; destruct Hd as [Hd | Hd];
          [apply Ascii.eqb_eq in Hd; subst char; reflexivity |]).
  discriminate.
Qed.

Lemma take_digits_all textiter : forall num char,
  all_digits textiter = true -> char_in char digits = true ->
  exists char', take_digits num char textiter = (num ++ textiter, char', [])
                /\ char_in char' digits = true.
Proof.
  induction textiter as [| c rest IH]; intros num char Hall Hc.
  - exists char. cbn [take_digits]. rewrite app_nil_r. split; [reflexivity | exact Hc].
  - cbn [all_digits forallb] in Hall. apply andb_prop in Hall.
    destruct Hall as [Hd Hrest]. unfold is_digit in Hd.
    cbn [take_digits]. rewrite Hd. cbn [negb].
    destruct (IH (num ++ [c]) c Hrest Hd) as [char' [Heq Hc']].
    exists char'. rewrite Heq, <- app_assoc. split; [reflexivity | exact Hc'].
Qed.

(** The tokens of a text made of digits only. *)
Lemma lex_digits (text : list ascii) :
  text <> [] -> all_digits text = true ->
  to_list (generate_tokens text)
  = Ok [mkToken NUMBER (Some (float_of_str text))].
Proof.
  intros Hne Hall. destruct text as [| char rest]; [now elim Hne |].
  cbn [all_digits forallb] in Hall. apply andb_prop in Hall.
  destruct Hall as [Hd Hrest]. unfold is_digit in Hd.
  destruct (take_digits_all rest [char] char Hrest Hd) as [char' [Htake Hc']].
  unfold to_list, generate_tokens.
  change (remaining (AtLoop (char :: rest))) with (2 * S (List.length rest))%nat.
  replace (S (2 * S (List.length rest)))
    with (S (S (S (2 * List.length rest)))) by lia.
  cbn [collect next generator_Iterator resume outer_loop].
  rewrite Hd, Htake.
  cbn [collect next generator_Iterator resume outer_loop bind].
  rewrite (dispatch_digit _ _ _ Hc'). reflexivity.
Qed.

(** ** Unrecognized symbols *)

Lemma dispatch_space char b textiter continue :
  is_space char = true -> dispatch char b textiter continue = continue.
Proof. unfold dispatch, is_space. intros ->. reflexivity. Qed.

Lemma dispatch_operator char b textiter continue :
  is_space char = false -> is_operator char = true ->
  exists tok, dispatch char b textiter continue = Ok (Some (tok, AtLoop textiter)).
Proof.
  unfold dispatch, is_space, is_operator. intros ->. cbn. intros Hop.
  repeat match goal with
         | |- context [Ascii.eqb char ?x] =>
             destruct (Ascii.eqb char x); [eexists; reflexivity |]
         end.
  discriminate.
Qed.

Lemma dispatch_unrecognized char b textiter continue :
  recognized char = false ->
  dispatch char b textiter continue
  = if b then Raise (unrecognized char) else continue.
Proof.
  unfold recognized, dispatch, is_space, is_operator. intros Hr.
  apply orb_false_elim in Hr. destruct Hr as [Hr Hop].
  apply orb_false_elim in Hr. destruct Hr as [_ ->].
  cbn in Hop.
  repeat (apply orb_false_elim in Hop; destruct Hop as [-> Hop]).
  reflexivity.
Qed.

Lemma space_or_operator_not_digit (c : ascii) :
  is_space c || is_operator c = true -> is_digit c = false.
Proof.
  unfold is_space, is_operator, char_in, whitespace. cbn. intros Hc.
  repeat (apply orb_prop in Hc; destruct Hc as [Hc | Hc]);
    try discriminate; apply Ascii.eqb_eq in Hc; subst c; reflexivity.
Qed.

Lemma unrecognized_not_digit (c : ascii) :
  recognized c = false -> char_in c digits = false.
Proof.
  unfold recognized, is_digit. intros Hr.
  apply orb_false_elim in Hr. destruct Hr as [Hr _].
  apply orb_false_elim in Hr. destruct Hr as [Hr _]. exact Hr.
Qed.

Section Unrecognized.

Variables (c : ascii) (post : list ascii).
Hypothesis Hc : recognized c = false.

(** At the top of the loop, the symbol raises. *)
Lemma raises_at_symbol : raises_from_loop (unrecognized c) (c :: post).
Proof.
  intros [| fuel] Hfuel; [lia |].
  cbn [collect next generator_Iterator resume outer_loop].
  rewrite (unrecognized_not_digit c Hc), (dispatch_unrecognized _ _ _ _ Hc).
  reflexivity.
Qed.

(** After whitespace or an operator, the generator is at the top of the
    loop, whether that character came first or ended a number. *)
Lemma raises_after_symbol_free (p : ascii) (rest : list ascii) :
  is_space p || is_operator p = true ->
  raises_from_loop (unrecognized c) rest ->
  raises_from_loop (unrecognized c) (p :: rest)
  /\ raises_after_digits (unrecognized c) (p :: rest).
Proof.
  intros Hp Hrest.
  pose proof (space_or_operator_not_digit p Hp) as Hnd. unfold is_digit in Hnd.
  assert (Hnum : forall b fuel, (2 * List.length rest + 1 < fuel)%nat ->
            match dispatch p b rest (outer_loop rest) with
            | Ok (Some (tok, tokens')) =>
                toks <- collect (pred fuel) tokens' ;; Ok (tok :: toks)
            | Ok None => Ok []
            | Raise e => Raise e
            | OutOfFuel => OutOfFuel
            | Unmodelled => Unmodelled
            end = Raise (unrecognized c)).
  { intros b fuel Hfuel. destruct (is_space p) eqn:Hs.
    - rewrite (dispatch_space _ _ _ _ Hs).
      assert (Hgo := Hrest fuel ltac:(lia)).
      destruct fuel as [| fuel]; [lia |]. exact Hgo.
    - destruct (dispatch_operator p b rest (outer_loop rest) Hs Hp) as [tok ->].
      rewrite (Hrest (pred fuel) ltac:(lia)). reflexivity. }
  split.
  - intros [| fuel] Hfuel; [lia |].
    cbn [collect next generator_Iterator resume outer_loop]. rewrite Hnd.
    apply (Hnum true (S fuel)). cbn [List.length] in Hfuel. lia.
  - intros num ch num' ch' rest' fuel Htake Hfuel.
    cbn [take_digits] in Htake. rewrite Hnd in Htake. cbn [negb] in Htake.
    injection Htake as _ <- <-.
    destruct fuel as [| fuel]; [lia |].
    cbn [collect next generator_Iterator resume].
    apply (Hnum false (S fuel)). lia.
Qed.

(** A digit starts or continues a number. *)
Lemma raises_after_digit (p : ascii) (rest : list ascii) :
  is_digit p = true ->
  raises_after_digits (unrecognized c) rest ->
  raises_from_loop (unrecognized c) (p :: rest)
  /\ raises_after_digits (unrecognized c) (p :: rest).
Proof.
  intros Hp Hrest. unfold is_digit in Hp. split.
  - intros [| fuel] Hfuel; [lia |].
    cbn [collect next generator_Iterator resume outer_loop]. rewrite Hp.
    destruct (take_digits [p] p rest) as [[num' ch'] rest'] eqn:Htake.
    pose proof (take_digits_length _ _ _ _ _ _ Htake) as Hlen.
    rewrite (Hrest _ _ _ _ _ fuel Htake); [reflexivity |].
    cbn [List.length] in Hfuel. lia.
  - intros num ch num' ch' rest' fuel Htake Hfuel.
    cbn [take_digits] in Htake. rewrite Hp in Htake. cbn [negb] in Htake.
    exact (Hrest _ _ _ _ _ fuel Htake Hfuel).
Qed.

Lemma raises_through (s : ascii) (pre : list ascii) :
  is_space s || is_operator s = true ->
  forallb recognized pre = true ->
  raises_from_loop (unrecognized c) (pre ++ s :: c :: post)
  /\ raises_after_digits (unrecognized c) (pre ++ s :: c :: post).
Proof.
  intros Hs. induction pre as [| p pre IH]; intros Hpre.
  - apply raises_after_symbol_free; [exact Hs | exact raises_at_symbol].
  - cbn [forallb] in Hpre. apply andb_prop in Hpre. destruct Hpre as [Hp Hpre].
    destruct (IH Hpre) as [IHloop IHdigits]. cbn [app].
    destruct (is_digit p) eqn:Hd.
    + apply raises_after_digit; assumption.
    + apply raises_after_symbol_free; [| exact IHloop].
      unfold recognized in Hp. rewrite Hd in Hp. exact Hp.
Qed.

(** X2: the tokenizer raises "Unrecognized symbol" for a character it has no
    case for (a parenthesis is one) when that character comes first. *)
Lemma first_symbol_raises :
  to_list (generate_tokens (c :: post)) = Raise (unrecognized c).
Proof. apply raises_at_symbol. cbn. lia. Qed.

(** X3: it raises for that character too when the character follows
    whitespace or an operator and everything before is recognized: the
    tokens before it are yielded, then the exception is raised. *)
Lemma symbol_raises (s : ascii) (pre : list ascii) :
  forallb recognized pre = true ->
  is_space s || is_operator s = true ->
  to_list (generate_tokens (pre ++ s :: c :: post)) = Raise (unrecognized c).
Proof.
  intros Hpre Hs. destruct (raises_through s pre Hs Hpre) as [Hloop _].
  apply Hloop. cbn. lia.
Qed.

Lemma take_digits_until_symbol (ds : list ascii) : forall num ch,
  all_digits ds = true ->
  take_digits num ch (ds ++ c :: post) = (num ++ ds, c, post).
Proof.
  induction ds as [| d ds IH]; intros num ch Hall.
  - cbn [app take_digits]. rewrite (unrecognized_not_digit c Hc).
    rewrite app_nil_r. reflexivity.
  - cbn [all_digits forallb] in Hall. apply andb_prop in Hall.
    destruct Hall as [Hd Hrest]. unfold is_digit in Hd.
    cbn [app take_digits]. rewrite Hd. cbn [negb].
    rewrite (IH _ _ Hrest), <- app_assoc. reflexivity.
Qed.

(** X4: directly after a run of digits the symbol is skipped instead, with
    no exception: the tokens are the number followed by the tokens of what
    comes after the symbol. *)
Lemma symbol_after_digits_is_skipped (d : ascii) (ds : list ascii) (fuel : nat) :
  all_digits (d :: ds) = true ->
  collect (S fuel) (generate_tokens ((d :: ds) ++ c :: post))
  = (toks <- collect fuel (generate_tokens post) ;;
     Ok (mkToken NUMBER (Some (float_of_str (d :: ds))) :: toks)).
Proof.
  intros Hall. cbn [all_digits forallb] in Hall. apply andb_prop in Hall.
  destruct Hall as [Hd Hrest]. unfold is_digit in Hd.
  unfold generate_tokens.
  cbn [app collect next generator_Iterator resume outer_loop].
  rewrite Hd, (take_digits_until_symbol ds _ _ Hrest). cbn [app].
  replace (collect fuel (AtNumber c post)) with (collect fuel (AtLoop post)).
  - reflexivity.
  - destruct fuel as [| fuel]; [reflexivity |].
    cbn [collect next generator_Iterator resume].
    rewrite (dispatch_unrecognized _ _ _ _ Hc). reflexivity.
Qed.

End Unrecognized.

(** ** Integers as floats *)

Lemma iter_xO_digits (k p : positive) :
  digits2_pos (Pos.iter xO p k) = (digits2_pos p + k)%positive.
Proof.
  induction k as [| k IH] using Pos.peano_ind.
  - cbn. rewrite Pos.add_1_r. reflexivity.
  - rewrite Pos.iter_succ. cbn [digits2_pos]. rewrite IH, Pos.add_succ_r.
    reflexivity.
Qed.

Lemma iter_xO_value (k p : positive) :
  Zpos (Pos.iter xO p k) = Zpos p * 2 ^ Zpos k.
Proof.
  induction k as [| k IH] using Pos.peano_ind.
  - cbn [Pos.iter]. rewrite Pos2Z.inj_xO. change (2 ^ 1) with 2. lia.
  - rewrite Pos.iter_succ, Pos2Z.inj_xO, IH, Pos2Z.inj_succ.
    rewrite Z.pow_succ_r by lia. lia.
Qed.

Lemma digits2_pos_lower (p : positive) :
  2 ^ (Zpos (digits2_pos p) - 1) <= Zpos p.
Proof.
  induction p as [p IH | p IH |]; cbn [digits2_pos].
  - rewrite Pos2Z.inj_succ, (Pos2Z.inj_xI p).
    replace (Z.succ (Zpos (digits2_pos p)) - 1)
      with (Z.succ (Zpos (digits2_pos p) - 1)) by lia.
    rewrite Z.pow_succ_r by lia. lia.
  - rewrite Pos2Z.inj_succ, (Pos2Z.inj_xO p).
    replace (Z.succ (Zpos (digits2_pos p)) - 1)
      with (Z.succ (Zpos (digits2_pos p) - 1)) by lia.
    rewrite Z.pow_succ_r by lia. lia.
  - cbn. lia.
Qed.

Lemma digits2_pos_le (p : positive) (n : Z) :
  0 <= n -> Zpos p < 2 ^ n -> Zpos (digits2_pos p) <= n.
Proof.
  intros Hn Hp. destruct (Z_le_gt_dec (Zpos (digits2_pos p)) n) as [Hle | Hgt].
  - exact Hle.
  - pose proof (digits2_pos_lower p) as Hlow.
    assert (Hpow : 2 ^ n <= 2 ^ (Zpos (digits2_pos p) - 1))
      by (apply Z.pow_le_mono_r; lia).
    lia.
Qed.

(** A mantissa that is already in canonical form is not rounded. *)
Lemma binary_round_aux_canonical (m : positive) (e : Z) :
  canonical_mantissa prec emax m e = true -> e <= emax - prec ->
  binary_round_aux prec emax false (Zpos m) e loc_Exact = S754_finite false m e.
Proof.
  unfold canonical_mantissa. intros Hcan He. apply Z.eqb_eq in Hcan.
  unfold binary_round_aux, shr_fexp. cbn [Zdigits2 shr_record_of_loc].
  rewrite Hcan, Z.sub_diag.
  cbn [shr shr_m loc_of_shr_record round_nearest_even Zdigits2 shr_record_of_loc].
  rewrite Hcan, Z.sub_diag. cbn [shr shr_m].
  apply Z.leb_le in He. rewrite He. reflexivity.
Qed.

(** Integers below [2^53] are floats. *)
Lemma float_of_Z_exact (z : Z) :
  0 <= z < 2 ^ 53 -> float_to_Z (float_of_Z z) = Some z.
Proof.
  intros [Hlo Hhi]. destruct z as [| p | p]; [reflexivity | | lia].
  pose proof (digits2_pos_le p 53 ltac:(lia) Hhi) as Hd.
  assert (Hd1 : 1 <= Zpos (digits2_pos p)) by lia.
  unfold float_of_Z, binary_normalize, binary_round, shl_align.
  rewrite Z.add_0_r.
  assert (Hfexp : fexp prec emax (Zpos (digits2_pos p)) = Zpos (digits2_pos p) - 53).
  { unfold fexp, emin, prec, emax. lia. }
  rewrite Hfexp.
  destruct (Zpos (digits2_pos p) - 53 - 0) as [| k | k] eqn:Hk; [| lia |].
  - (* 53 digits: the mantissa is kept *)
    rewrite binary_round_aux_canonical.
    + cbn [float_to_Z]. rewrite Z.leb_refl, Z.pow_0_r. f_equal; lia.
    + unfold canonical_mantissa. apply Z.eqb_eq.
      unfold fexp, emin, prec, emax. lia.
    + unfold emax, prec. lia.
  - (* fewer digits: the mantissa is shifted to 53 digits *)
    assert (Hk' : Zpos k = 53 - Zpos (digits2_pos p)) by lia.
    rewrite binary_round_aux_canonical.
    + cbn [float_to_Z].
      assert (Hneg : (0 <=? Zpos (digits2_pos p) - 53) = false)
        by (apply Z.leb_gt; lia).
      rewrite Hneg.
      replace (- (Zpos (digits2_pos p) - 53)) with (Zpos k) by lia.
      rewrite iter_xO_value.
      assert (Hpow : 0 < 2 ^ Zpos k) by (apply Z.pow_pos_nonneg; lia).
      rewrite Z.mod_mul by lia. rewrite Z.eqb_refl.
      rewrite Z.div_mul by lia. f_equal; lia.
    + unfold canonical_mantissa. apply Z.eqb_eq. rewrite iter_xO_digits.
      rewrite Pos2Z.inj_add. unfold fexp, emin, prec, emax. lia.
    + unfold emax, prec. lia.
Qed.

Lemma digit_val_nonneg (c : ascii) :
  char_in c digits = true -> 0 <= digit_val c <= 9.
Proof.
  intros Hd. unfold char_in, digits in Hd. cbn in Hd.
  repeat (apply orb_prop in Hd; destruct Hd as [Hd | Hd];
          [apply Ascii.eqb_eq in Hd; subst c; vm_compute; split; discriminate |]).
  discriminate.
Qed.

Lemma decimal_from_nonneg (text : list ascii) : forall acc,
  0 <= acc -> all_digits text = true ->
  0 <= fold_left (fun acc c => 10 * acc + digit_val c) text acc.
Proof.
  induction text as [| c rest IH]; intros acc Hacc Hall.
  - exact Hacc.
  - cbn [all_digits forallb] in Hall. apply andb_prop in Hall.
    destruct Hall as [Hd Hrest]. unfold is_digit in Hd. cbn [fold_left].
    apply IH; [| exact Hrest].
    pose proof (digit_val_nonneg c Hd). lia.
Qed.

Lemma decimal_nonneg (text : list ascii) :
  all_digits text = true -> 0 <= decimal text.
Proof. apply decimal_from_nonneg. lia. Qed.

(** ** The evaluator *)






(** ** The program as a whole *)



(** * The claims *)

(** X1: the tokenizer has no case for parentheses: no token it yields is
    LPAREN or RPAREN (or EOF), in whatever state it is resumed. *)
Lemma generator_never_yields_paren (g g' : generator) (tok : Token) :
  resume g = Ok (Some (tok, g')) ->
  type tok <> LPAREN /\ type tok <> RPAREN /\ type tok <> EOF.
Proof. intros Heq. apply lexed_not_paren. eapply resume_lexed. exact Heq. Qed.

(** The parser does group on LPAREN and RPAREN when an iterator gives them:
    on the tokens of (1+2)*3 it returns the tree of (1+2)*3, whose value is
    9.0. *)
Lemma parser_groups_parentheses :
  let tokens := [Token1 LPAREN; number 1; Token1 PLUS; number 2; Token1 RPAREN;
                 Token1 STAR; number 3] in
  let tree := BinaryOpNode
                (BinaryOpNode (literal 1) (Token1 PLUS) (literal 2))
                (Token1 STAR) (literal 3) in
  parse tokens = Ok (Token1 EOF, tree, [])
  /\ visit tree = Ok (Some (float_of_Z 9)).
Proof. split; vm_compute; reflexivity. Qed.

(** C1: on the input (1+2)*3 the pipeline does not reach the parser's
    grouping: the first character is an opening parenthesis, the tokenizer
    has no case for it and raises "Unrecognized symbol" when the parser asks
    for the first token.  Only the prompt is printed. *)
Theorem C1_parenthesis_is_unrecognized :
  resume (generate_tokens (list_ascii_of_string "(1+2)*3"))
  = Raise (Exception "Unrecognized symbol: '('")
  /\ main "(1+2)*3"
     = ([Print_str prompt; Read_stdin],
        Raise (Exception "Unrecognized symbol: '('")).
Proof. split; vm_compute; reflexivity. Qed.

(** C2 as stated fails: evaluating 3/0 does not succeed. *)
Lemma C2_division_by_zero_is_an_error :
  ~ (exists trace, main "3/0" = (trace, Ok tt)).
Proof. intros [trace Heq]. vm_compute in Heq. discriminate. Qed.

(** Division by a zero of either sign raises, whatever the dividend. *)
Lemma float_div_zero (x y : float) :
  is_zero y = true -> float_div x y = Raise ZeroDivisionError.
Proof. intros Hz. unfold float_div. rewrite Hz. reflexivity. Qed.

(** C2 (amended): the input 3/0 is tokenized and parsed without error, into
    the division of 3.0 by 0.0; evaluating it raises ZeroDivisionError, so
    no result is printed. *)
Theorem C2_division_by_zero_raises :
  to_list (generate_tokens (list_ascii_of_string "3/0"))
  = Ok [number 3; Token1 SLASH; number 0]
  /\ (exists g,
       parse (generate_tokens (list_ascii_of_string "3/0"))
       = Ok (Token1 EOF,
             BinaryOpNode (literal 3) (Token1 SLASH) (literal 0), g))
  /\ visit (BinaryOpNode (literal 3) (Token1 SLASH) (literal 0))
     = Raise ZeroDivisionError
  /\ main "3/0" = ([Print_str prompt; Read_stdin], Raise ZeroDivisionError).
Proof.
  split; [vm_compute; reflexivity |].
  split; [eexists; vm_compute; reflexivity |].
  split; vm_compute; reflexivity.
Qed.

(** C3: a character that is not recognized is dropped without an error when
    it ends a run of digits.  On 3@+ the tokenizer yields the number, drops
    the '@' and goes on to yield PLUS; on 3@ the program prints 3.0.  The
    example of the claim, 3+@, does raise. *)
Theorem C3_symbol_after_digits_is_dropped :
  to_list (generate_tokens (list_ascii_of_string "3@+"))
  = Ok [number 3; Token1 PLUS]
  /\ main "3@"
     = ([Print_str prompt; Read_stdin; Print_value (Some (float_of_Z 3))], Ok tt)
  /\ to_list (generate_tokens (list_ascii_of_string "3+@"))
     = Raise (Exception "Unrecognized symbol: '@'").
Proof. repeat split; vm_compute; reflexivity. Qed.

(** C4: when [expr] returns a lookahead token that is not EOF, the assert of
    [main] fails: the program ends with AssertionError after the prompt, and
    nothing is evaluated or printed. *)
Theorem C4_trailing_token_is_fatal
    (stdin : string) (last_token : Token) (node : Node) (g : generator) :
  parse (generate_tokens (list_ascii_of_string stdin)) = Ok (last_token, node, g) ->
  type last_token <> EOF ->
  main stdin = ([Print_str prompt; Read_stdin], Raise AssertionError).
Proof.
  intros Hparse Hlast. unfold main.
  destruct (list_ascii_of_string stdin) as [| char rest] eqn:Htext.
  - vm_compute in Hparse. discriminate.
  - rewrite Hparse.
    destruct (type last_token); try reflexivity. now elim Hlast.
Qed.

(** On the input "1 2" the parser returns the tree of 1 with the second
    number as its lookahead token, and the program fails as C4 says. *)
Lemma C4_one_two :
  parse (generate_tokens (list_ascii_of_string "1 2"))
  = Ok (number 2, literal 1, AtNumber "2" [])
  /\ type (number 2) <> EOF
  /\ main "1 2" = ([Print_str prompt; Read_stdin], Raise AssertionError).
Proof.
  assert (Hparse : parse (generate_tokens (list_ascii_of_string "1 2"))
                   = Ok (number 2, literal 1, AtNumber "2" []))
    by (vm_compute; reflexivity).
  assert (Hlast : type (number 2) <> EOF) by discriminate.
  split; [exact Hparse |]. split; [exact Hlast |].
  exact (C4_trailing_token_is_fatal "1 2" (number 2) (literal 1)
           (AtNumber "2" []) Hparse Hlast).
Defined.

(** C5: the caret is right-associative.  Whatever the three numbers, the
    tokens of x^y^z are parsed as x^(y^z); the input 2^3^2 is parsed as
    2^(3^2) and the program prints 512.0, which is not 64.0. *)
Theorem C5_caret_is_right_associative :
  (forall x y z : pyval,
     parse [mkToken NUMBER x; Token1 CARET; mkToken NUMBER y; Token1 CARET;
            mkToken NUMBER z]
     = Ok (Token1 EOF,
           BinaryOpNode (NumberNode x) (Token1 CARET)
             (BinaryOpNode (NumberNode y) (Token1 CARET) (NumberNode z)),
           []))
  /\ (exists g,
       parse (generate_tokens (list_ascii_of_string "2^3^2"))
       = Ok (Token1 EOF,
             BinaryOpNode (literal 2) (Token1 CARET)
               (BinaryOpNode (literal 3) (Token1 CARET) (literal 2)), g))
  /\ main "2^3^2"
     = ([Print_str prompt; Read_stdin; Print_value (Some (float_of_Z 512))],
        Ok tt)
  /\ float_of_Z 512 <> float_of_Z 64.
Proof.
  split; [intros x y z; reflexivity |].
  split; [eexists; vm_compute; reflexivity |].
  split; [vm_compute; reflexivity |].
  vm_compute. discriminate.
Qed.

(** C6: a leading unary minus applies to the whole power.  Whatever the two
    numbers, the tokens of -x^y are parsed as -(x^y); the input -2^2 is
    parsed as -(2^2) and the program prints -4.0. *)
Theorem C6_unary_minus_wraps_power :
  (forall x y : pyval,
     parse [Token1 MINUS; mkToken NUMBER x; Token1 CARET; mkToken NUMBER y]
     = Ok (Token1 EOF,
           UnaryOpNode (Token1 MINUS)
             (BinaryOpNode (NumberNode x) (Token1 CARET) (NumberNode y)),
           []))
  /\ (exists g,
       parse (generate_tokens (list_ascii_of_string "-2^2"))
       = Ok (Token1 EOF,
             UnaryOpNode (Token1 MINUS)
               (BinaryOpNode (literal 2) (Token1 CARET) (literal 2)), g))
  /\ main "-2^2"
     = ([Print_str prompt; Read_stdin; Print_value (Some (float_of_Z (-4)))],
        Ok tt).
Proof.
  split; [intros x y; reflexivity |].
  split; [eexists; vm_compute; reflexivity |].
  vm_compute; reflexivity.
Qed.

(** C7 as stated fails: the sixteen digits of 2^53 + 1 give one NUMBER
    token, but its payload is the float 2^53, not the number written. *)
Lemma C7_long_digit_run_is_rounded :
  let text := list_ascii_of_string "9007199254740993" in
  text <> [] /\ all_digits text = true
  /\ ~ (exists v, to_list (generate_tokens text) = Ok [mkToken NUMBER (Some v)]
                  /\ float_to_Z v = Some (decimal text)).
Proof.
  cbv zeta. split; [discriminate |]. split; [reflexivity |].
  intros [v [Hlist Hv]]. vm_compute in Hlist. injection Hlist as <-.
  vm_compute in Hv. discriminate.
Qed.

(** C7 (amended): a non-empty input made of digits only gives exactly one
    token, a NUMBER whose payload is [float] of the whole run: the float
    nearest to the number written.  It is that number itself when the number
    is below 2^53. *)
Theorem C7_digit_run_is_one_number (text : list ascii) :
  text <> [] -> all_digits text = true ->
  to_list (generate_tokens text)
  = Ok [mkToken NUMBER (Some (float_of_Z (decimal text)))]
  /\ (decimal text < 2 ^ 53 ->
      float_to_Z (float_of_Z (decimal text)) = Some (decimal text)).
Proof.
  intros Hne Hall. split.
  - exact (lex_digits text Hne Hall).
  - intros Hlt. apply float_of_Z_exact. split; [| exact Hlt].
    apply decimal_nonneg. exact Hall.
Qed.

(** The run 0042 is one NUMBER token, and its payload is the number 42
    itself. *)
Lemma C7_digit_run_0042 :
  let text := list_ascii_of_string "0042" in
  to_list (generate_tokens text) = Ok [number 42]
  /\ float_to_Z (float_of_Z 42) = Some 42.
Proof.
  cbv zeta.
  assert (Hne : list_ascii_of_string "0042" <> []) by discriminate.
  assert (Hall : all_digits (list_ascii_of_string "0042") = true)
    by reflexivity.
  destruct (C7_digit_run_is_one_number (list_ascii_of_string "0042") Hne Hall)
    as [Hlist Hexact].
  split.
  - exact Hlist.
  - apply Hexact. reflexivity.
Defined.

(** C8 as stated fails: on empty input the program does write to standard
    output. *)
Lemma C8_empty_input_has_output : printed (fst (main "")) <> [].
Proof. vm_compute. discriminate. Qed.

(** C8 (amended): on empty input the program prints the prompt, reads, and
    returns without an error; it prints nothing else, and no token is asked
    of the tokenizer. *)
Theorem C8_empty_input_prints_only_the_prompt :
  main "" = ([Print_str prompt; Read_stdin], Ok tt).
Proof. reflexivity. Qed.

(** C9: in every tree that [expr] returns, on whatever state of the
    tokenizer and with whatever fuel, the operator of each binary node is one
    of PLUS, MINUS, STAR, SLASH, CARET and the operator of each unary node is
    PLUS or MINUS; and every token the tokenizer yields, in whatever state it
    is resumed, carries a payload exactly when it is a NUMBER. *)
Theorem C9_trees_and_tokens_are_well_formed
    (fuel : nat) (tokens tokens' : generator) (last_token : Token) (node : Node)
    (g g' : generator) (tok : Token) :
  expr fuel tokens = Ok (last_token, node, tokens') ->
  resume g = Ok (Some (tok, g')) ->
  well_formed node = true /\ payload_ok tok.
Proof.
  intros Hexpr Hresume. split.
  - destruct (parser_well_formed (I := generator) fuel) as [He _].
    eapply He. exact Hexpr.
  - apply lexed_payload_ok. eapply resume_lexed. exact Hresume.
Qed.

(** On the input 1+-2: the tree that [expr] returns, and the first two
    tokens of the tokenizer. *)
Lemma C9_on_one_plus_minus_two :
  let tree := BinaryOpNode (literal 1) (Token1 PLUS)
                (UnaryOpNode (Token1 MINUS) (literal 2)) in
  parse (generate_tokens (list_ascii_of_string "1+-2"))
  = Ok (Token1 EOF, tree, AtNumber "2" [])
  /\ well_formed tree = true
  /\ payload_ok (number 1) /\ payload_ok (Token1 PLUS).
Proof.
  cbv zeta.
  assert (Hparse : parse (generate_tokens (list_ascii_of_string "1+-2"))
                   = Ok (Token1 EOF,
                         BinaryOpNode (literal 1) (Token1 PLUS)
                           (UnaryOpNode (Token1 MINUS) (literal 2)),
                         AtNumber "2" []))
    by (vm_compute; reflexivity).
  assert (Hfirst : resume (generate_tokens (list_ascii_of_string "1+-2"))
                   = Ok (Some (number 1, AtNumber "+" (list_ascii_of_string "-2"))))
    by (vm_compute; reflexivity).
  assert (Hsecond : resume (AtNumber "+" (list_ascii_of_string "-2"))
                    = Ok (Some (Token1 PLUS, AtLoop (list_ascii_of_string "-2"))))
    by (vm_compute; reflexivity).
  split; [exact Hparse |].
  split; [| split].
  - exact (proj1 (C9_trees_and_tokens_are_well_formed _ _ _ _ _ _ _ _
                    Hparse Hfirst)).
  - exact (proj2 (C9_trees_and_tokens_are_well_formed _ _ _ _ _ _ _ _
                    Hparse Hfirst)).
  - exact (proj2 (C9_trees_and_tokens_are_well_formed _ _ _ _ _ _ _ _
                    Hparse Hsecond)).
Defined.

(** C10: whatever the input, empty or not, the first thing [main] does is
    print the prompt, and it reads standard input only after that; so what
    the program prints is never the result line alone. *)
Theorem C10_prompt_comes_first (stdin : string) :
  (exists rest, fst (main stdin) = Print_str prompt :: Read_stdin :: rest)
  /\ (forall v, printed (fst (main stdin)) <> [Print_value v])
  /\ hd_error (printed (fst (main stdin)))
     = Some (Print_str "Press <Ctrl-D> to Terminate input").
Proof.
  unfold main. destruct (list_ascii_of_string stdin) as [| char rest].
  - split; [eexists; reflexivity |]. split; [discriminate | reflexivity].
  - destruct (parse (generate_tokens (char :: rest)))
      as [[[tok node] g] | e | |];
      try (split; [eexists; reflexivity |]; split; [discriminate | reflexivity]).
    destruct (negb (TokenType_eqb (type tok) EOF));
      try (split; [eexists; reflexivity |]; split; [discriminate | reflexivity]).
    destruct (visit node);
      split; try (eexists; reflexivity); split; try discriminate; reflexivity.
Qed.

(** * Further properties *)

(** ** Fuel *)

Section Fuel.

Context {I : Type} `{IteratorLaws I}.

Lemma expr_more_fuel (tokens : I) (n m : nat) :
  (n <= m)%nat -> expr n tokens <> OutOfFuel -> expr m tokens = expr n tokens.
Proof.
  intros Hle Hn. induction Hle as [| m Hle IH]; [reflexivity |].
  destruct (parser_more_fuel m) as [He _].
  rewrite He; [exact IH |]. rewrite IH. exact Hn.
Qed.

(** Any run of [expr] that does not exhaust its fuel is the run of [parse]. *)
Lemma parse_eq_expr (tokens : I) (n : nat) :
  expr n tokens <> OutOfFuel -> parse tokens = expr n tokens.
Proof.
  intros Hn. destruct (Nat.le_ge_cases n (expr_fuel tokens)) as [Hle | Hge].
  - unfold parse. apply expr_more_fuel; assumption.
  - symmetry. apply parse_any_fuel. exact Hge.
Qed.

Lemma collect_more_fuel (fuel : nat) : forall tokens : I,
  collect fuel tokens <> OutOfFuel ->
  collect (S fuel) tokens = collect fuel tokens.
Proof.
  induction fuel as [| fuel IH]; intros tokens Hn.
  - now elim Hn.
  - cbn [collect] in Hn. cbn [collect].
    destruct (next tokens) as [[[tok tokens'] |] | e | |]; try reflexivity.
    revert Hn. apply bind_more_fuel.
    + apply IH.
    + intros toks _ _. reflexivity.
Qed.

Lemma collect_any_fuel (tokens : I) (fuel : nat) :
  (remaining tokens < fuel)%nat -> collect fuel tokens = to_list tokens.
Proof.
  unfold to_list. intros Hlt. induction Hlt as [| fuel Hlt IH].
  - reflexivity.
  - rewrite collect_more_fuel; [exact IH |].
    rewrite IH. apply collect_returns. lia.
Qed.

End Fuel.

(** ** The parser depends on the tokens only *)

Lemma bind_rel {A1 A2 B1 B2 : Type}
    (P : A1 -> A2 -> Prop) (Q : B1 -> B2 -> Prop)
    (m1 : result A1) (m2 : result A2)
    (k1 : A1 -> result B1) (k2 : A2 -> result B2) :
  result_rel P m1 m2 ->
  (forall a b, P a b -> result_rel Q (k1 a) (k2 b)) ->
  result_rel Q (bind m1 k1) (bind m2 k2).
Proof.
  intros Hm Hk.
  destruct m1 as [a | e1 | |], m2 as [b | e2 | |]; cbn in *;
    try contradiction; auto.
Qed.

Section Bisimulation.

Context {I1 I2 : Type} {Iter1 : Iterator I1} {Iter2 : Iterator I2}.
Variable R : I1 -> I2 -> Prop.
Hypothesis HR : bisimulation R.

Lemma next_or_EOF_rel (i1 : I1) (i2 : I2) :
  R i1 i2 -> result_rel (same_token R) (next_or_EOF i1) (next_or_EOF i2).
Proof.
  intros Hi. pose proof (HR i1 i2 Hi) as Hn. unfold next_or_EOF.
  destruct (next i1) as [[[t1 j1] |] | e1 | |],
           (next i2) as [[[t2 j2] |] | e2 | |];
    cbn in *; try contradiction; auto.
  split; [reflexivity | exact Hi].
Qed.

Ltac related_call IHcall Hi :=
  eapply bind_rel; [apply IHcall; exact Hi |];
  let t1 := fresh "t1" in let n1 := fresh "n1" in let j1 := fresh "j1" in
  let t2 := fresh "t2" in let n2 := fresh "n2" in let j2 := fresh "j2" in
  let Ht := fresh "Ht" in let Hn := fresh "Hn" in let Hj := fresh "Hj" in
  intros [[t1 n1] j1] [[t2 n2] j2] (Ht & Hn & Hj);
  cbn [fst snd] in Ht, Hn, Hj; subst t2 n2.

Lemma parser_bisimulation (fuel : nat) :
  (forall i1 i2, R i1 i2 ->
     result_rel (same_parse R) (expr fuel i1) (expr fuel i2))
  /\ (forall token l i1 i2, R i1 i2 ->
        result_rel (same_parse R)
          (expr_while fuel token l i1) (expr_while fuel token l i2))
  /\ (forall i1 i2, R i1 i2 ->
        result_rel (same_parse R) (term fuel i1) (term fuel i2))
  /\ (forall token l i1 i2, R i1 i2 ->
        result_rel (same_parse R)
          (term_while fuel token l i1) (term_while fuel token l i2))
  /\ (forall i1 i2, R i1 i2 ->
        result_rel (same_parse R) (factor fuel i1) (factor fuel i2))
  /\ (forall token i1 i2, R i1 i2 ->
        result_rel (same_parse R) (power fuel i1 token) (power fuel i2 token))
  /\ (forall token l i1 i2, R i1 i2 ->
        result_rel (same_parse R)
          (power_while fuel token l i1) (power_while fuel token l i2))
  /\ (forall token i1 i2, R i1 i2 ->
        result_rel (same_parse R) (atom fuel i1 token) (atom fuel i2 token)).
Proof.
  induction fuel as [| fuel IH].
  - split_all; intros; exact Logic.I.
  - destruct IH as (IHe & IHew & IHt & IHtw & IHf & IHp & IHpw & IHa).
    split_all.
    + intros i1 i2 Hi. cbn [expr]. related_call IHt Hi. apply IHew. exact Hj.
    + intros token l i1 i2 Hi. cbn [expr_while].
      destruct (type_in (type token) [PLUS; MINUS]).
      * related_call IHt Hi. apply IHew. exact Hj.
      * repeat split. exact Hi.
    + intros i1 i2 Hi. cbn [term]. related_call IHf Hi. apply IHtw. exact Hj.
    + intros token l i1 i2 Hi. cbn [term_while].
      destruct (type_in (type token) [STAR; SLASH]).
      * related_call IHf Hi. apply IHtw. exact Hj.
      * repeat split. exact Hi.
    + intros i1 i2 Hi. cbn [factor].
      eapply bind_rel; [apply next_or_EOF_rel; exact Hi |].
      intros [t1 j1] [t2 j2] [Ht Hj]. cbn [fst snd] in Ht, Hj. subst t2.
      destruct (type_in (type t1) [PLUS; MINUS]).
      * related_call IHf Hj. repeat split. exact Hj0.
      * apply IHp. exact Hj.
    + intros token i1 i2 Hi. cbn [power].
      eapply bind_rel; [apply IHa; exact Hi |].
      intros [[t1 n1] j1] [[t2 n2] j2] (Ht & Hn & Hj).
      cbn [fst snd] in Ht, Hn, Hj. subst t2 n2. apply IHpw. exact Hj.
    + intros token l i1 i2 Hi. cbn [power_while].
      destruct (TokenType_eqb (type token) CARET).
      * related_call IHf Hi. apply IHpw. exact Hj.
      * repeat split. exact Hi.
    + intros token i1 i2 Hi. cbn [atom].
      destruct (TokenType_eqb (type token) NUMBER).
      * eapply bind_rel; [apply next_or_EOF_rel; exact Hi |].
        intros [t1 j1] [t2 j2] [Ht Hj]. cbn [fst snd] in Ht, Hj. subst t2.
        repeat split. exact Hj.
      * destruct (TokenType_eqb (type token) LPAREN); [| reflexivity].
        related_call IHe Hi.
        destruct (negb (TokenType_eqb (type t1) RPAREN)); [reflexivity |].
        eapply bind_rel; [apply next_or_EOF_rel; exact Hj |].
        intros [t3 j3] [t4 j4] [Ht Hj']. cbn [fst snd] in Ht, Hj'. subst t4.
        repeat split. exact Hj'.
Qed.

Context {Laws1 : IteratorLaws I1} {Laws2 : IteratorLaws I2}.

Lemma parse_bisimulation (i1 : I1) (i2 : I2) :
  R i1 i2 -> result_rel (same_parse R) (parse i1) (parse i2).
Proof.
  intros Hi.
  rewrite <- (parse_any_fuel i1 (Nat.max (expr_fuel i1) (expr_fuel i2)))
    by lia.
  rewrite <- (parse_any_fuel i2 (Nat.max (expr_fuel i1) (expr_fuel i2)))
    by lia.
  destruct (parser_bisimulation (Nat.max (expr_fuel i1) (expr_fuel i2)))
    as [He _].
  apply He. exact Hi.
Qed.

End Bisimulation.

(** ** Generators that give the same tokens *)

Lemma resumes_alike_bisimulation : bisimulation resumes_alike.
Proof.
  intros g1 g2 Hg. unfold resumes_alike in Hg.
  change (result_rel (same_item resumes_alike) (resume g1) (resume g2)).
  rewrite Hg. destruct (resume g2) as [[[tok g] |] | e | |]; cbn; auto.
  split; reflexivity.
Qed.

Lemma dispatch_rel (R : generator -> generator -> Prop)
    (char : ascii) (b : bool) (t1 t2 : list ascii)
    (k1 k2 : result (option (Token * generator))) :
  R (AtLoop t1) (AtLoop t2) ->
  result_rel (same_item R) k1 k2 ->
  result_rel (same_item R) (dispatch char b t1 k1) (dispatch char b t2 k2).
Proof.
  intros Hloop Hk. unfold dispatch.
  repeat match goal with
         | |- context [if ?c then _ else _] => destruct c
         end; cbn; auto.
Qed.

Section TrailingSpace.

Variable s : ascii.
Hypothesis Hs : is_space s = true.

Lemma space_not_digit : char_in s digits = false.
Proof.
  apply (space_or_operator_not_digit s). rewrite Hs. reflexivity.
Qed.

Lemma take_digits_trailing (t : list ascii) : forall num ch n c r,
  is_digit ch = true ->
  take_digits num ch t = (n, c, r) ->
  take_digits num ch (t ++ [s]) = (n, c, r ++ [s])
  \/ (r = [] /\ is_digit c = true /\ take_digits num ch (t ++ [s]) = (n, s, [])).
Proof.
  induction t as [| c0 t IH]; intros num ch n c r Hch Htake.
  - cbn [take_digits] in Htake. injection Htake as <- <- <-.
    right. cbn [app take_digits]. rewrite space_not_digit. auto.
  - cbn [take_digits app] in *. destruct (char_in c0 digits) eqn:Hd; cbn [negb] in *.
    + apply (IH _ _ _ _ _ Hd Htake).
    + injection Htake as <- <- <-. left. reflexivity.
Qed.

Lemma outer_loop_trailing (t : list ascii) :
  result_rel (same_item (with_trailing s)) (outer_loop t) (outer_loop (t ++ [s])).
Proof.
  induction t as [| char t IH].
  - cbn [app outer_loop]. rewrite space_not_digit.
    rewrite (dispatch_space _ _ _ _ Hs). exact Logic.I.
  - cbn [app outer_loop]. destruct (char_in char digits) eqn:Hd.
    + destruct (take_digits [char] char t) as [[n c] r] eqn:Htake.
      destruct (take_digits_trailing t _ _ _ _ _ Hd Htake)
        as [-> | (-> & Hc & ->)]; cbn; auto 6.
    + apply dispatch_rel; [reflexivity | exact IH].
Qed.

Lemma with_trailing_bisimulation : bisimulation (with_trailing s).
Proof.
  intros g1 g2 Hg.
  change (result_rel (same_item (with_trailing s)) (resume g1) (resume g2)).
  destruct g1 as [t1 | c1 t1], g2 as [t2 | c2 t2]; cbn [with_trailing] in Hg;
    try contradiction.
  - subst t2. apply outer_loop_trailing.
  - destruct Hg as [[-> ->] | (-> & -> & Hc & ->)]; cbn [resume].
    + apply dispatch_rel; [reflexivity | apply outer_loop_trailing].
    + unfold is_digit in Hc. rewrite (dispatch_digit _ _ _ Hc).
      rewrite (dispatch_space _ _ _ _ Hs). exact Logic.I.
Qed.

End TrailingSpace.

Lemma lists_to_bisimulation : bisimulation lists_to.
Proof.
  intros g l Hgl. unfold lists_to, to_list in Hgl. cbn [collect] in Hgl.
  change (next l) with (list_next l).
  destruct (next g) as [[[tok g'] |] | e | |] eqn:Hnext; try discriminate.
  - bind_inv Hgl as toks by Hrest. injection Hgl as <-.
    cbn. split; [reflexivity |]. unfold lists_to.
    rewrite <- Hrest. symmetry. apply collect_any_fuel.
    apply next_remaining in Hnext. exact Hnext.
  - injection Hgl as <-. exact Logic.I.
Qed.

(** ** What [main] takes from the parse *)

Lemma list_ascii_of_string_app (a b : string) :
  list_ascii_of_string (a ++ b)
  = list_ascii_of_string a ++ list_ascii_of_string b.
Proof.
  induction a as [| c a IH]; [reflexivity |].
  cbn. rewrite IH. reflexivity.
Qed.

Lemma main_same_parse (R : generator -> generator -> Prop) (stdin1 stdin2 : string) :
  stdin1 <> EmptyString -> stdin2 <> EmptyString ->
  result_rel (same_parse R)
    (parse (generate_tokens (list_ascii_of_string stdin1)))
    (parse (generate_tokens (list_ascii_of_string stdin2))) ->
  main stdin1 = main stdin2.
Proof.
  intros H1 H2 Hrel. unfold main.
  destruct stdin1 as [| c1 r1]; [now elim H1 |].
  destruct stdin2 as [| c2 r2]; [now elim H2 |].
  cbn [list_ascii_of_string] in *.
  destruct (parse (generate_tokens (c1 :: list_ascii_of_string r1)))
    as [[[t1 n1] g1] | e1 | |],
    (parse (generate_tokens (c2 :: list_ascii_of_string r2)))
    as [[[t2 n2] g2] | e2 | |]; cbn in Hrel; try contradiction.
  - destruct Hrel as (Ht & Hn & _). cbn [fst snd] in Ht, Hn. subst t2 n2.
    reflexivity.
  - subst e2. reflexivity.
  - reflexivity.
  - reflexivity.
Qed.

(** ** One step of each parsing function *)

Section Unfolding.

Context {I : Type} `{Iterator I}.

Lemma expr_S fuel (tokens : I) :
  expr (S fuel) tokens
  = ('(token, l, tokens) <- term fuel tokens ;; expr_while fuel token l tokens).
Proof. reflexivity. Qed.

Lemma expr_while_S fuel token l (tokens : I) :
  expr_while (S fuel) token l tokens
  = if type_in (type token) [PLUS; MINUS]
    then '(token', r, tokens) <- term fuel tokens ;;
         expr_while fuel token' (BinaryOpNode l token r) tokens
    else Ok (token, l, tokens).
Proof. reflexivity. Qed.

Lemma term_S fuel (tokens : I) :
  term (S fuel) tokens
  = ('(token, l, tokens) <- factor fuel tokens ;; term_while fuel token l tokens).
Proof. reflexivity. Qed.

Lemma term_while_S fuel token l (tokens : I) :
  term_while (S fuel) token l tokens
  = if type_in (type token) [STAR; SLASH]
    then '(token', r, tokens) <- factor fuel tokens ;;
         term_while fuel token' (BinaryOpNode l token r) tokens
    else Ok (token, l, tokens).
Proof. reflexivity. Qed.

Lemma factor_S fuel (tokens : I) :
  factor (S fuel) tokens
  = ('(token, tokens) <- next_or_EOF tokens ;;
     if type_in (type token) [PLUS; MINUS]
     then '(token', r, tokens) <- factor fuel tokens ;;
          Ok (token', UnaryOpNode token r, tokens)
     else power fuel tokens token).
Proof. reflexivity. Qed.

Lemma power_S fuel (tokens : I) token :
  power (S fuel) tokens token
  = ('(token, l, tokens) <- atom fuel tokens token ;;
     power_while fuel token l tokens).
Proof. reflexivity. Qed.

Lemma power_while_S fuel token l (tokens : I) :
  power_while (S fuel) token l tokens
  = if TokenType_eqb (type token) CARET
    then '(token', r, tokens) <- factor fuel tokens ;;
         power_while fuel token' (BinaryOpNode l token r) tokens
    else Ok (token, l, tokens).
Proof. reflexivity. Qed.

Lemma atom_S fuel (tokens : I) token :
  atom (S fuel) tokens token
  = if TokenType_eqb (type token) NUMBER
    then '(token', tokens) <- next_or_EOF tokens ;;
         Ok (token', NumberNode (value token), tokens)
    else if TokenType_eqb (type token) LPAREN
    then '(token', node, tokens) <- expr fuel tokens ;;
         if negb (TokenType_eqb (type token') RPAREN)
         then Raise (Exception "Missing )")
         else '(token'', tokens) <- next_or_EOF tokens ;;
              Ok (token'', node, tokens)
    else Raise (Exception "Error").
Proof. reflexivity. Qed.

End Unfolding.

(** ** The lookahead token *)

Section Lookahead.

Context {I : Type} `{Iterator I}.

Ltac by_type tok := destruct (type tok); cbn in *; congruence.

(** What each level of the grammar leaves behind: [power] stops at a token
    that is not CARET, [term] at one that is not STAR or SLASH either, and
    [expr] at one that is no operator at all. *)
Lemma parser_lookahead (fuel : nat) :
  (forall tokens : I,
     lookahead_not [PLUS; MINUS; STAR; SLASH; CARET] (expr fuel tokens))
  /\ (forall token l (tokens : I),
        type_in (type token) [STAR; SLASH; CARET] = false ->
        lookahead_not [PLUS; MINUS; STAR; SLASH; CARET]
          (expr_while fuel token l tokens))
  /\ (forall tokens : I, lookahead_not [STAR; SLASH; CARET] (term fuel tokens))
  /\ (forall token l (tokens : I),
        type_in (type token) [CARET] = false ->
        lookahead_not [STAR; SLASH; CARET] (term_while fuel token l tokens))
  /\ (forall tokens : I, lookahead_not [CARET] (factor fuel tokens))
  /\ (forall (tokens : I) token, lookahead_not [CARET] (power fuel tokens token))
  /\ (forall token l (tokens : I),
        lookahead_not [CARET] (power_while fuel token l tokens)).
Proof.
  unfold lookahead_not. induction fuel as [| fuel IH].
  - split_all; intros; discriminate.
  - destruct IH as (IHe & IHew & IHt & IHtw & IHf & IHp & IHpw).
    split_all.
    + intros tokens tok node tokens' Heq. cbn [expr] in Heq.
      bind_inv Heq as [[tok1 l1] tokens1] by Hcall.
      apply IHew in Heq; [exact Heq |]. eapply IHt. exact Hcall.
    + intros token l tokens Htoken tok node tokens' Heq.
      cbn [expr_while] in Heq.
      destruct (type_in (type token) [PLUS; MINUS]) eqn:Hop.
      * bind_inv Heq as [[tok1 r1] tokens1] by Hcall.
        apply IHew in Heq; [exact Heq |]. eapply IHt. exact Hcall.
      * injection Heq as <- _ _. by_type token.
    + intros tokens tok node tokens' Heq. cbn [term] in Heq.
      bind_inv Heq as [[tok1 l1] tokens1] by Hcall.
      apply IHtw in Heq; [exact Heq |]. eapply IHf. exact Hcall.
    + intros token l tokens Htoken tok node tokens' Heq.
      cbn [term_while] in Heq.
      destruct (type_in (type token) [STAR; SLASH]) eqn:Hop.
      * bind_inv Heq as [[tok1 r1] tokens1] by Hcall.
        apply IHtw in Heq; [exact Heq |]. eapply IHf. exact Hcall.
      * injection Heq as <- _ _. by_type token.
    + intros tokens tok node tokens' Heq. cbn [factor] in Heq.
      bind_inv Heq as [tok1 tokens1] by Hnext.
      destruct (type_in (type tok1) [PLUS; MINUS]).
      * bind_inv Heq as [[tok2 r2] tokens2] by Hcall.
        injection Heq as <- _ _. eapply IHf. exact Hcall.
      * eapply IHp. exact Heq.
    + intros tokens token tok node tokens' Heq. cbn [power] in Heq.
      bind_inv Heq as [[tok1 l1] tokens1] by Hcall.
      eapply IHpw. exact Heq.
    + intros token l tokens tok node tokens' Heq. cbn [power_while] in Heq.
      destruct (TokenType_eqb (type token) CARET) eqn:Hop.
      * bind_inv Heq as [[tok1 r1] tokens1] by Hcall.
        eapply IHpw. exact Heq.
      * injection Heq as <- _ _. by_type token.
Qed.

End Lookahead.

(** ** Trees and errors of the parser on the tokenizer's tokens *)

Lemma from_tokenizer_payload (tok : Token) :
  from_tokenizer tok -> type tok = NUMBER -> value tok <> None.
Proof.
  intros [[[_ Hv] | [Hop _]] | ->] Ht.
  - exact Hv.
  - rewrite Ht in Hop. discriminate.
  - discriminate.
Qed.

Lemma from_tokenizer_not_LPAREN (tok : Token) :
  from_tokenizer tok -> TokenType_eqb (type tok) LPAREN = false.
Proof.
  intros [Hl | ->]; [| reflexivity].
  destruct (lexed_not_paren tok Hl) as [Hp _].
  destruct (type tok); try reflexivity. now elim Hp.
Qed.

Section TokenizerTokens.

Context {I : Type} `{Iterator I}.
Hypothesis Hlexed : forall (i : I) tok i', next i = Ok (Some (tok, i')) -> lexed tok.

Lemma next_or_EOF_from_tokenizer (tokens : I) :
  match next_or_EOF tokens with
  | Ok (tok, _) => from_tokenizer tok
  | Raise e => exists i : I, next i = Raise e
  | _ => True
  end.
Proof.
  unfold next_or_EOF.
  destruct (next tokens) as [[[tok i] |] | e | |] eqn:Hnext; auto.
  - left. eapply Hlexed. exact Hnext.
  - right. reflexivity.
  - exists tokens. exact Hnext.
Qed.

Ltac call_then IHcall :=
  match goal with
  | |- tree_or_error (bind ?m _) =>
      let Hm := fresh "Hm" in
      pose proof IHcall as Hm; revert Hm;
      destruct m as [[[? ?] ?] | ? | |]; intros Hm; cbn [bind];
      [ | exact Hm | exact Logic.I | exact Logic.I ]
  end.

Lemma parser_tree_or_error (fuel : nat) :
  (forall tokens : I, tree_or_error (expr fuel tokens))
  /\ (forall token l (tokens : I),
        from_tokenizer token -> has_payloads l = true ->
        tree_or_error (expr_while fuel token l tokens))
  /\ (forall tokens : I, tree_or_error (term fuel tokens))
  /\ (forall token l (tokens : I),
        from_tokenizer token -> has_payloads l = true ->
        tree_or_error (term_while fuel token l tokens))
  /\ (forall tokens : I, tree_or_error (factor fuel tokens))
  /\ (forall (tokens : I) token, from_tokenizer token ->
        tree_or_error (power fuel tokens token))
  /\ (forall token l (tokens : I),
        from_tokenizer token -> has_payloads l = true ->
        tree_or_error (power_while fuel token l tokens))
  /\ (forall (tokens : I) token, from_tokenizer token ->
        tree_or_error (atom fuel tokens token)).
Proof.
  induction fuel as [| fuel IH].
  - split_all; intros; exact Logic.I.
  - destruct IH as (IHe & IHew & IHt & IHtw & IHf & IHp & IHpw & IHa).
    split_all.
    + intros tokens. rewrite expr_S. call_then (IHt tokens).
      destruct Hm as [Htok Hnode]. apply IHew; assumption.
    + intros token l tokens Htoken Hl. rewrite expr_while_S.
      destruct (type_in (type token) [PLUS; MINUS]); [| split; assumption].
      call_then (IHt tokens). destruct Hm as [Htok Hnode].
      apply IHew; [exact Htok |]. cbn [has_payloads].
      rewrite Hl, Hnode. reflexivity.
    + intros tokens. rewrite term_S. call_then (IHf tokens).
      destruct Hm as [Htok Hnode]. apply IHtw; assumption.
    + intros token l tokens Htoken Hl. rewrite term_while_S.
      destruct (type_in (type token) [STAR; SLASH]); [| split; assumption].
      call_then (IHf tokens). destruct Hm as [Htok Hnode].
      apply IHtw; [exact Htok |]. cbn [has_payloads].
      rewrite Hl, Hnode. reflexivity.
    + intros tokens. rewrite factor_S.
      pose proof (next_or_EOF_from_tokenizer tokens) as Hnext. revert Hnext.
      destruct (next_or_EOF tokens) as [[tok1 tokens1] | e | |];
        intros Hnext; cbn [bind];
        [| right; exact Hnext | exact Logic.I | exact Logic.I].
      destruct (type_in (type tok1) [PLUS; MINUS]).
      * call_then (IHf tokens1). exact Hm.
      * apply IHp. exact Hnext.
    + intros tokens token Htoken. rewrite power_S.
      call_then (IHa tokens token Htoken).
      destruct Hm as [Htok Hnode]. apply IHpw; assumption.
    + intros token l tokens Htoken Hl. rewrite power_while_S.
      destruct (TokenType_eqb (type token) CARET); [| split; assumption].
      call_then (IHf tokens). destruct Hm as [Htok Hnode].
      apply IHpw; [exact Htok |]. cbn [has_payloads].
      rewrite Hl, Hnode. reflexivity.
    + intros tokens token Htoken. rewrite atom_S.
      destruct (TokenType_eqb (type token) NUMBER) eqn:Hnum.
      * pose proof (next_or_EOF_from_tokenizer tokens) as Hnext. revert Hnext.
        destruct (next_or_EOF tokens) as [[tok1 tokens1] | e | |];
          intros Hnext; cbn [bind];
          [| right; exact Hnext | exact Logic.I | exact Logic.I].
        split; [exact Hnext |]. cbn [has_payloads].
        assert (Hv : value token <> None).
        { apply from_tokenizer_payload; [exact Htoken |].
          destruct (type token); try discriminate. reflexivity. }
        destruct (value token); [reflexivity | now elim Hv].
      * rewrite (from_tokenizer_not_LPAREN token Htoken).
        left. reflexivity.
Qed.

End TokenizerTokens.

(** ** What the tokenizer raises *)

Lemma dispatch_raises char b textiter continue e :
  dispatch char b textiter continue = Raise e ->
  (b = true /\ e = unrecognized char
   /\ is_space char = false /\ is_operator char = false)
  \/ continue = Raise e.
Proof.
  unfold dispatch, is_space, is_operator. cbn [list_ascii_of_string char_in existsb].
  destruct (char_in char whitespace); [intros Heq; right; exact Heq |].
  repeat match goal with
         | |- context [Ascii.eqb char ?x] =>
             destruct (Ascii.eqb char x); [discriminate |]
         end.
  destruct b; intros Heq.
  - injection Heq as <-. left. repeat split.
  - right. exact Heq.
Qed.

Lemma outer_loop_raises (textiter : list ascii) (e : exn) :
  outer_loop textiter = Raise e ->
  exists c, In c textiter /\ e = unrecognized c /\ recognized c = false.
Proof.
  induction textiter as [| char rest IH]; intros Heq.
  - discriminate.
  - cbn [outer_loop] in Heq. destruct (char_in char digits) eqn:Hd.
    + destruct (take_digits [char] char rest) as [[num char'] rest'].
      discriminate.
    + apply dispatch_raises in Heq. destruct Heq as [(_ & -> & Hs & Ho) | Heq].
      * exists char. split; [left; reflexivity |]. split; [reflexivity |].
        unfold recognized, is_digit. rewrite Hd, Hs, Ho. reflexivity.
      * destruct (IH Heq) as [c [Hin Hc]]. exists c.
        split; [right; exact Hin | exact Hc].
Qed.

Lemma resume_raises (g : generator) (e : exn) :
  resume g = Raise e -> exists c, e = unrecognized c /\ recognized c = false.
Proof.
  destruct g as [textiter | char textiter]; cbn [resume]; intros Heq.
  - destruct (outer_loop_raises _ _ Heq) as [c [_ Hc]]. exists c. exact Hc.
  - apply dispatch_raises in Heq. destruct Heq as [(Hb & _) | Heq].
    + (* [num] is not [None]: this call does not raise *)
      discriminate.
    + destruct (outer_loop_raises _ _ Heq) as [c [_ Hc]]. exists c. exact Hc.
Qed.

(** ** Evaluating the trees of the parser *)

Lemma py_arith_pow_outcome (x y : float) :
  float_or_arith_error (py_arith float_pow (Some x) (Some y)).
Proof.
  cbn [py_arith]. unfold float_pow, libm_pow.
  repeat match goal with
         | |- context [if ?c then _ else _] => destruct c; cbn [bind]
         | |- context [match ?c with _ => _ end] => destruct c; cbn [bind]
         end; exact Logic.I.
Qed.

Lemma arith_outcome (op : float -> float -> result float) (l r : result pyval) :
  float_or_arith_error l -> float_or_arith_error r ->
  (forall x y, float_or_arith_error (py_arith op (Some x) (Some y))) ->
  float_or_arith_error (a <- l ;; b <- r ;; py_arith op a b).
Proof.
  intros Hl Hr Hop.
  destruct l as [[x |] | [] | |]; cbn in Hl |- *; try contradiction;
    try exact Logic.I;
    destruct r as [[y |] | [] | |]; cbn in Hr |- *; try contradiction;
    try exact Logic.I.
  apply Hop.
Qed.

(** A tree with operators in their places and payloads in its numbers
    evaluates to a float or fails in the arithmetic: [visit] does not return
    [None] and does not raise TypeError. *)
Lemma visit_float_or_arith_error (node : Node) :
  well_formed node = true -> has_payloads node = true ->
  float_or_arith_error (visit node).
Proof.
  induction node as [v | l IHl op r IHr | op n IHn];
    cbn [well_formed has_payloads visit]; intros Hwf Hpay.
  - destruct v; [exact Logic.I | discriminate].
  - apply andb_prop in Hwf. destruct Hwf as [Hwf Hr].
    apply andb_prop in Hwf. destruct Hwf as [Hop Hl].
    apply andb_prop in Hpay. destruct Hpay as [Hpl Hpr].
    specialize (IHl Hl Hpl). specialize (IHr Hr Hpr).
    unfold visit_BinaryOpNode.
    destruct (type op); try discriminate;
      (apply arith_outcome; [exact IHl | exact IHr | intros x y]);
      try exact Logic.I.
    + unfold float_div. cbn [py_arith]. destruct (is_zero y); exact Logic.I.
    + apply py_arith_pow_outcome.
  - apply andb_prop in Hwf. destruct Hwf as [Hop Hn].
    specialize (IHn Hn Hpay). unfold visit_UnaryOpNode.
    destruct (type op); try discriminate.
    + exact IHn.
    + destruct (visit n) as [[x |] | [] | |]; cbn in IHn |- *;
        try contradiction; exact Logic.I.
Qed.

(** The parser on the tokenizer. *)
Lemma parse_generator_tree_or_error (g : generator) : tree_or_error (parse g).
Proof.
  destruct (parser_tree_or_error (I := generator) (H := generator_Iterator)
              resume_lexed (expr_fuel g))
    as [He _].
  apply He.
Qed.

Lemma parse_generator_well_formed (g g' : generator) tok node :
  parse g = Ok (tok, node, g') -> well_formed node = true.
Proof.
  intros Heq. destruct (parser_well_formed (I := generator) (expr_fuel g))
    as [He _].
  eapply He. exact Heq.
Qed.

(** ** Chains of operators, on a list of tokens *)

Lemma factor_number fuel v (rest rest' : list Token) tok :
  next_or_EOF rest = Ok (tok, rest') ->
  TokenType_eqb (type tok) CARET = false ->
  factor (S (S (S fuel))) (mkToken NUMBER v :: rest)
  = Ok (tok, NumberNode v, rest').
Proof.
  intros Hnext Hcaret. rewrite factor_S.
  cbn [next_or_EOF next list_Iterator list_next bind type type_in existsb
       TokenType_eqb orb].
  rewrite power_S, atom_S. cbn [type TokenType_eqb value].
  rewrite Hnext. cbn [bind]. rewrite power_while_S, Hcaret. reflexivity.
Qed.

Lemma term_number fuel v (rest rest' : list Token) tok :
  next_or_EOF rest = Ok (tok, rest') ->
  type_in (type tok) [STAR; SLASH; CARET] = false ->
  term (S (S (S (S (S fuel))))) (mkToken NUMBER v :: rest)
  = Ok (tok, NumberNode v, rest').
Proof.
  intros Hnext Htok. rewrite term_S.
  rewrite (factor_number _ _ _ _ _ Hnext)
    by (destruct (type tok); cbn in *; congruence).
  cbn [bind]. rewrite term_while_S.
  replace (type_in (type tok) [STAR; SLASH]) with false
    by (destruct (type tok); cbn in *; congruence).
  reflexivity.
Qed.

(** The lookahead token at a chain: its first operator, or EOF. *)
Lemma next_or_EOF_chain (ops : list (Token * pyval)) :
  exists tok rest,
    next_or_EOF (chain_tokens ops) = Ok (tok, rest)
    /\ match ops with
       | [] => tok = Token1 EOF /\ rest = []
       | p :: ops' =>
           tok = fst p /\ rest = mkToken NUMBER (snd p) :: chain_tokens ops'
       end.
Proof.
  destruct ops as [| p ops']; cbn; eauto.
Qed.

Lemma expr_while_chain (ops : list (Token * pyval)) :
  forall acc fuel tok rest,
    forallb (fun p => additive (fst p)) ops = true ->
    next_or_EOF (chain_tokens ops) = Ok (tok, rest) ->
    expr_while (List.length ops + 6 + fuel) tok acc rest
    = Ok (Token1 EOF, chain_tree acc ops, []).
Proof.
  induction ops as [| [op v] ops IH]; intros acc fuel tok rest Hops Hnext.
  - cbn in Hnext. injection Hnext as <- <-. reflexivity.
  - cbn in Hnext. injection Hnext as <- <-.
    cbn [forallb fst] in Hops. apply andb_prop in Hops.
    destruct Hops as [Hop Hops]. unfold additive in Hop.
    cbn [List.length Nat.add]. rewrite expr_while_S, Hop.
    destruct (next_or_EOF_chain ops) as (tok' & rest' & Hnext' & Hshape).
    replace (List.length ops + 6 + fuel)%nat
      with (S (S (S (S (S (List.length ops + 1 + fuel)))))) by lia.
    rewrite (term_number _ _ _ _ _ Hnext').
    + cbn [bind].
      replace (S (S (S (S (S (List.length ops + 1 + fuel))))))
        with (List.length ops + 6 + fuel)%nat by lia.
      apply IH; assumption.
    + destruct ops as [| [op' v'] ops'].
      * destruct Hshape as [-> _]. reflexivity.
      * destruct Hshape as [-> _]. cbn [forallb fst] in Hops.
        apply andb_prop in Hops. destruct Hops as [Hop' _].
        unfold additive in Hop'. cbn [fst].
        destruct (type op'); cbn in *; congruence.
Qed.

Lemma term_while_chain (ops : list (Token * pyval)) :
  forall acc fuel tok rest,
    forallb (fun p => multiplicative (fst p)) ops = true ->
    next_or_EOF (chain_tokens ops) = Ok (tok, rest) ->
    term_while (List.length ops + 4 + fuel) tok acc rest
    = Ok (Token1 EOF, chain_tree acc ops, []).
Proof.
  induction ops as [| [op v] ops IH]; intros acc fuel tok rest Hops Hnext.
  - cbn in Hnext. injection Hnext as <- <-. reflexivity.
  - cbn in Hnext. injection Hnext as <- <-.
    cbn [forallb fst] in Hops. apply andb_prop in Hops.
    destruct Hops as [Hop Hops]. unfold multiplicative in Hop.
    cbn [List.length Nat.add]. rewrite term_while_S, Hop.
    destruct (next_or_EOF_chain ops) as (tok' & rest' & Hnext' & Hshape).
    replace (List.length ops + 4 + fuel)%nat
      with (S (S (S (List.length ops + 1 + fuel)))) by lia.
    rewrite (factor_number _ _ _ _ _ Hnext').
    + cbn [bind].
      replace (S (S (S (List.length ops + 1 + fuel))))
        with (List.length ops + 4 + fuel)%nat by lia.
      apply IH; assumption.
    + destruct ops as [| [op' v'] ops'].
      * destruct Hshape as [-> _]. reflexivity.
      * destruct Hshape as [-> _]. cbn [forallb fst] in Hops.
        apply andb_prop in Hops. destruct Hops as [Hop' _].
        unfold multiplicative in Hop'. cbn [fst].
        destruct (type op'); cbn in *; congruence.
Qed.


(** ** The program on whole inputs *)

Lemma outer_loop_spaces (text : list ascii) :
  forallb is_space text = true -> outer_loop text = Ok None.
Proof.
  induction text as [| s text IH]; intros Hall; [reflexivity |].
  cbn [forallb] in Hall. apply andb_prop in Hall. destruct Hall as [Hs Hall].
  cbn [outer_loop]. rewrite (space_not_digit s Hs), (dispatch_space _ _ _ _ Hs).
  apply IH. exact Hall.
Qed.

(** When the tokenizer has nothing to give, the parser raises "Error". *)
Lemma parse_nothing (g : generator) :
  resume g = Ok None -> parse g = Raise (Exception "Error").
Proof.
  intros Hg.
  assert (Hrun : expr 5 g = Raise (Exception "Error")).
  { rewrite expr_S, term_S, factor_S. unfold next_or_EOF.
    change (next g) with (resume g). rewrite Hg. reflexivity. }
  rewrite (parse_eq_expr g 5); rewrite Hrun; [reflexivity | discriminate].
Qed.

(** Whitespace before the text does not change what the parser returns. *)
Lemma parse_leading_space (s : ascii) (text : list ascii) :
  is_space s = true ->
  result_rel (same_parse resumes_alike)
    (parse (generate_tokens (s :: text))) (parse (generate_tokens text)).
Proof.
  intros Hs. apply (parse_bisimulation resumes_alike resumes_alike_bisimulation).
  unfold resumes_alike, generate_tokens. cbn [resume outer_loop].
  rewrite (space_not_digit s Hs), (dispatch_space _ _ _ _ Hs). reflexivity.
Qed.

(** Whitespace after the text does not either. *)
Lemma parse_trailing_space (s : ascii) (text : list ascii) :
  is_space s = true ->
  result_rel (same_parse (with_trailing s))
    (parse (generate_tokens text)) (parse (generate_tokens (text ++ [s]))).
Proof.
  intros Hs.
  apply (parse_bisimulation (with_trailing s) (with_trailing_bisimulation s Hs)).
  reflexivity.
Qed.

(** The parser on the generator and on the list of its tokens. *)
Lemma parse_generator_list (text : list ascii) (toks : list Token) :
  to_list (generate_tokens text) = Ok toks ->
  result_rel (same_parse lists_to) (parse (generate_tokens text)) (parse toks).
Proof.
  intros Hlist. apply (parse_bisimulation lists_to lists_to_bisimulation).
  exact Hlist.
Qed.

(** * Properties beyond the claims *)

(** ** The tokenizer *)

Lemma generator_never_yields_paren_on_7_plus :
  resume (generate_tokens (list_ascii_of_string "7+"))
  = Ok (Some (number 7, AtNumber "+" []))
  /\ type (number 7) <> LPAREN /\ type (number 7) <> RPAREN
  /\ type (number 7) <> EOF.
Proof.
  assert (Hresume : resume (generate_tokens (list_ascii_of_string "7+"))
                    = Ok (Some (number 7, AtNumber "+" [])))
    by (vm_compute; reflexivity).
  split; [exact Hresume |].
  exact (generator_never_yields_paren _ _ _ Hresume).
Defined.

Lemma first_symbol_raises_on_paren :
  recognized "(" = false
  /\ to_list (generate_tokens (list_ascii_of_string "(1)"))
     = Raise (Exception "Unrecognized symbol: '('").
Proof.
  split; [reflexivity |].
  exact (first_symbol_raises "(" (list_ascii_of_string "1)") eq_refl).
Defined.

Lemma symbol_raises_on_12_plus_hash :
  to_list (generate_tokens (list_ascii_of_string "12+#4"))
  = Raise (Exception "Unrecognized symbol: '#'").
Proof.
  exact (symbol_raises "#" (list_ascii_of_string "4") eq_refl
           "+" (list_ascii_of_string "12") eq_refl eq_refl).
Defined.

Lemma symbol_after_digits_is_skipped_on_12_paren_3 :
  collect 5 (generate_tokens (list_ascii_of_string "12(3"))
  = (toks <- collect 4 (generate_tokens (list_ascii_of_string "3")) ;;
     Ok (mkToken NUMBER (Some (float_of_str (list_ascii_of_string "12")))
           :: toks)).
Proof.
  exact (symbol_after_digits_is_skipped "(" (list_ascii_of_string "3") eq_refl
           "1" (list_ascii_of_string "2") 4 eq_refl).
Defined.

Lemma take_digits_until (ds : list ascii) (c : ascii) (post : list ascii) :
  forall num ch,
    all_digits ds = true -> char_in c digits = false ->
    take_digits num ch (ds ++ c :: post) = (num ++ ds, c, post).
Proof.
  induction ds as [| d ds IH]; intros num ch Hall Hc.
  - cbn [app take_digits]. rewrite Hc, app_nil_r. reflexivity.
  - cbn [all_digits forallb] in Hall. apply andb_prop in Hall.
    destruct Hall as [Hd Hrest]. unfold is_digit in Hd.
    cbn [app take_digits]. rewrite Hd. cbn [negb].
    rewrite (IH _ _ Hrest Hc), <- app_assoc. reflexivity.
Qed.

Lemma dispatch_operator_token char b textiter continue :
  is_operator char = true ->
  dispatch char b textiter continue
  = Ok (Some (operator_token char, AtLoop textiter)).
Proof.
  unfold is_operator. cbn. intros Hop.
  repeat (apply orb_prop in Hop; destruct Hop as [Hop | Hop]);
    try discriminate; apply Ascii.eqb_eq in Hop; subst char; reflexivity.
Qed.

(** X5: a run of digits that an operator character ends gives the NUMBER of the
    whole run and then the token of that operator: the character that stops
    the run is looked at again, not lost.  The tokens of the rest follow. *)
Theorem digits_then_operator
    (d : ascii) (ds : list ascii) (c : ascii) (post : list ascii) (fuel : nat) :
  all_digits (d :: ds) = true -> is_operator c = true ->
  collect (S (S fuel)) (generate_tokens ((d :: ds) ++ c :: post))
  = (toks <- collect fuel (generate_tokens post) ;;
     Ok (mkToken NUMBER (Some (float_of_str (d :: ds)))
           :: operator_token c :: toks)).
Proof.
  intros Hall Hop.
  assert (Hc : char_in c digits = false).
  { apply (space_or_operator_not_digit c). rewrite Hop. apply orb_true_r. }
  cbn [all_digits forallb] in Hall. apply andb_prop in Hall.
  destruct Hall as [Hd Hrest]. unfold is_digit in Hd.
  unfold generate_tokens.
  cbn [app collect next generator_Iterator resume outer_loop].
  rewrite Hd, (take_digits_until ds c post _ _ Hrest Hc). cbn [app].
  cbn [collect next generator_Iterator resume].
  rewrite (dispatch_operator_token _ _ _ _ Hop).
  destruct (collect fuel (AtLoop post)); reflexivity.
Qed.

Lemma digits_then_operator_on_40_times_2 :
  collect 6 (generate_tokens (list_ascii_of_string "40*2"))
  = (toks <- collect 4 (generate_tokens (list_ascii_of_string "2")) ;;
     Ok (mkToken NUMBER (Some (float_of_str (list_ascii_of_string "40")))
           :: Token1 STAR :: toks)).
Proof.
  exact (digits_then_operator "4" (list_ascii_of_string "0") "*"
           (list_ascii_of_string "2") 4 eq_refl eq_refl).
Defined.

(** X6: a text made of whitespace only gives no token, and the program, which
    has read something, fails in the parser with the exception "Error": the
    input of a user who only presses Enter is not the empty input. *)
Theorem whitespace_only_input_is_an_error (stdin : string) :
  stdin <> EmptyString ->
  forallb is_space (list_ascii_of_string stdin) = true ->
  to_list (generate_tokens (list_ascii_of_string stdin)) = Ok []
  /\ main stdin = ([Print_str prompt; Read_stdin], Raise (Exception "Error")).
Proof.
  intros Hne Hall. pose proof (outer_loop_spaces _ Hall) as Hloop. split.
  - unfold to_list, generate_tokens.
    cbn [collect next generator_Iterator resume]. rewrite Hloop. reflexivity.
  - unfold main. destruct stdin as [| c rest]; [now elim Hne |].
    cbn [list_ascii_of_string] in *.
    rewrite (parse_nothing (generate_tokens _) Hloop). reflexivity.
Qed.

Lemma whitespace_only_input_newline :
  main (String "010" EmptyString)
  = ([Print_str prompt; Read_stdin], Raise (Exception "Error")).
Proof.
  exact (proj2 (whitespace_only_input_is_an_error (String "010" EmptyString)
                  ltac:(discriminate) eq_refl)).
Defined.

(** ** The parser *)

(** X7: every call of [expr] that returns has taken at least one token from the
    tokenizer: the generator it leaves is strictly further in the text. *)
Theorem expr_consumes_a_token
    (fuel : nat) (g g' : generator) (tok : Token) (node : Node) :
  expr fuel g = Ok (tok, node, g') ->
  (generator_size g' < generator_size g)%nat.
Proof.
  intros Heq. destruct (parser_remaining (I := generator) fuel) as [He _].
  exact (He g tok node g' Heq).
Qed.

Lemma expr_consumes_a_token_on_1_plus_2 :
  expr 20 (generate_tokens (list_ascii_of_string "1+2"))
  = Ok (Token1 EOF,
        BinaryOpNode (literal 1) (Token1 PLUS) (literal 2), AtNumber "2" [])
  /\ (generator_size (AtNumber "2" [])
      < generator_size (generate_tokens (list_ascii_of_string "1+2")))%nat.
Proof.
  assert (Hrun : expr 20 (generate_tokens (list_ascii_of_string "1+2"))
                 = Ok (Token1 EOF,
                       BinaryOpNode (literal 1) (Token1 PLUS) (literal 2),
                       AtNumber "2" []))
    by (vm_compute; reflexivity).
  split; [exact Hrun |].
  exact (expr_consumes_a_token _ _ _ _ _ Hrun).
Defined.

(** X8: the parser terminates on every text: the depth of its calls and loop
    iterations is at most 14 times the length of the text plus 7, and beyond
    that bound the result does not depend on the budget. *)
Theorem parser_depth_is_linear (text : list ascii) (fuel : nat) :
  (14 * List.length text + 7 <= fuel)%nat ->
  expr fuel (generate_tokens text) <> OutOfFuel
  /\ expr fuel (generate_tokens text) = parse (generate_tokens text).
Proof.
  intros Hfuel.
  assert (Hle : (expr_fuel (generate_tokens text) <= fuel)%nat).
  { unfold expr_fuel, generate_tokens.
    cbn [remaining generator_Iterator generator_size]. lia. }
  rewrite (parse_any_fuel _ _ Hle). split; [apply parse_returns | reflexivity].
Qed.

Lemma parser_depth_is_linear_on_1_plus_2 :
  expr 49 (generate_tokens (list_ascii_of_string "1+2")) <> OutOfFuel
  /\ expr 49 (generate_tokens (list_ascii_of_string "1+2"))
     = parse (generate_tokens (list_ascii_of_string "1+2")).
Proof.
  apply (parser_depth_is_linear (list_ascii_of_string "1+2") 49).
  cbn. lia.
Defined.

Lemma parse_lookahead_cases
    (text : list ascii) (tok : Token) (node : Node) (g : generator) :
  parse (generate_tokens text) = Ok (tok, node, g) ->
  tok = Token1 EOF \/ (type tok = NUMBER /\ value tok <> None).
Proof.
  intros Heq.
  pose proof (parse_generator_tree_or_error (generate_tokens text)) as Htree.
  rewrite Heq in Htree. destruct Htree as [[Hlexed | ->] _]; [| left; reflexivity].
  destruct Hlexed as [Hnum | [Hop _]]; [right; exact Hnum |].
  destruct (parser_lookahead (I := generator)
              (expr_fuel (generate_tokens text))) as [He _].
  specialize (He _ _ _ _ Heq). unfold operator_type in Hop. congruence.
Qed.

(** X9: when [expr] returns on the tokenizer, its lookahead token is the EOF of
    the exhausted tokenizer or a NUMBER: every operator has been taken as
    one, so the only token that can be left over is a number. *)
Theorem lookahead_is_EOF_or_a_number
    (text : list ascii) (tok : Token) (node : Node) (g : generator) :
  parse (generate_tokens text) = Ok (tok, node, g) ->
  tok = Token1 EOF \/ (type tok = NUMBER /\ value tok <> None).
Proof. apply parse_lookahead_cases. Qed.

Lemma lookahead_is_EOF_or_a_number_on_7_8 :
  parse (generate_tokens (list_ascii_of_string "7 8"))
  = Ok (number 8, literal 7, AtNumber "8" [])
  /\ (number 8 = Token1 EOF
      \/ (type (number 8) = NUMBER /\ value (number 8) <> None)).
Proof.
  assert (Hrun : parse (generate_tokens (list_ascii_of_string "7 8"))
                 = Ok (number 8, literal 7, AtNumber "8" []))
    by (vm_compute; reflexivity).
  split; [exact Hrun |].
  exact (lookahead_is_EOF_or_a_number _ _ _ _ Hrun).
Defined.

(** X10: when the whole text can be tokenized, parsing from the lazy generator
    and parsing from the list of its tokens give the same lookahead token
    and the same tree, or raise the same exception. *)
Theorem generator_and_token_list_parse_alike
    (text : list ascii) (toks : list Token) :
  to_list (generate_tokens text) = Ok toks ->
  (forall tok node,
     (exists g, parse (generate_tokens text) = Ok (tok, node, g))
     <-> (exists l, parse toks = Ok (tok, node, l)))
  /\ (forall e, parse (generate_tokens text) = Raise e <-> parse toks = Raise e).
Proof.
  intros Hlist. pose proof (parse_generator_list text toks Hlist) as Hrel.
  destruct (parse (generate_tokens text)) as [[[t1 n1] g1] | e1 | |],
           (parse toks) as [[[t2 n2] l2] | e2 | |];
    cbn in Hrel; try contradiction.
  - destruct Hrel as (Ht & Hn & _). cbn [fst snd] in Ht, Hn. subst t2 n2.
    split.
    + intros tok node. split; intros [x Heq]; injection Heq as <- <- _; eauto.
    + intros e. split; discriminate.
  - subst e2. split.
    + intros tok node. split; intros [x Heq]; discriminate.
    + intros e. split; intros Heq; injection Heq as <-; reflexivity.
  - split.
    + intros tok node. split; intros [x Heq]; discriminate.
    + intros e. split; discriminate.
  - split.
    + intros tok node. split; intros [x Heq]; discriminate.
    + intros e. split; discriminate.
Qed.

Lemma generator_and_token_list_parse_alike_on_2_times_3 :
  to_list (generate_tokens (list_ascii_of_string "2*3"))
  = Ok [number 2; Token1 STAR; number 3]
  /\ ((exists g, parse (generate_tokens (list_ascii_of_string "2*3"))
                 = Ok (Token1 EOF,
                       BinaryOpNode (literal 2) (Token1 STAR) (literal 3), g))
      <-> (exists l, parse [number 2; Token1 STAR; number 3]
                     = Ok (Token1 EOF,
                           BinaryOpNode (literal 2) (Token1 STAR) (literal 3), l))).
Proof.
  assert (Hlist : to_list (generate_tokens (list_ascii_of_string "2*3"))
                  = Ok [number 2; Token1 STAR; number 3])
    by (vm_compute; reflexivity).
  split; [exact Hlist |].
  exact (proj1 (generator_and_token_list_parse_alike _ _ Hlist) _ _).
Defined.

Lemma chain_lookahead_additive (ops : list (Token * pyval)) tok rest :
  forallb (fun p => additive (fst p)) ops = true ->
  next_or_EOF (chain_tokens ops) = Ok (tok, rest) ->
  type_in (type tok) [STAR; SLASH; CARET] = false.
Proof.
  intros Hops Hnext. destruct ops as [| [op v] ops].
  - cbn in Hnext. injection Hnext as <- _. reflexivity.
  - cbn in Hnext. injection Hnext as <- _.
    cbn [forallb fst] in Hops. apply andb_prop in Hops.
    destruct Hops as [Hop _]. unfold additive in Hop.
    destruct (type op); cbn in *; congruence.
Qed.

Lemma chain_lookahead_multiplicative (ops : list (Token * pyval)) tok rest :
  forallb (fun p => multiplicative (fst p)) ops = true ->
  next_or_EOF (chain_tokens ops) = Ok (tok, rest) ->
  TokenType_eqb (type tok) CARET = false.
Proof.
  intros Hops Hnext. destruct ops as [| [op v] ops].
  - cbn in Hnext. injection Hnext as <- _. reflexivity.
  - cbn in Hnext. injection Hnext as <- _.
    cbn [forallb fst] in Hops. apply andb_prop in Hops.
    destruct Hops as [Hop _]. unfold multiplicative in Hop.
    destruct (type op); cbn in *; congruence.
Qed.

(** X11: PLUS and MINUS associate to the left, for chains of any length: the
    tokens of [v0 op1 v1 op2 v2 ...], with every operator PLUS or MINUS, are
    parsed as [((v0 op1 v1) op2 v2) ...], and everything is consumed. *)
Theorem additive_chain_is_left_associative
    (v0 : pyval) (ops : list (Token * pyval)) :
  forallb (fun p => additive (fst p)) ops = true ->
  parse (mkToken NUMBER v0 :: chain_tokens ops)
  = Ok (Token1 EOF, chain_tree (NumberNode v0) ops, []).
Proof.
  intros Hops.
  destruct (next_or_EOF_chain ops) as (tok & rest & Hnext & _).
  assert (Hrun : expr (S (List.length ops + 6 + 0))
                   (mkToken NUMBER v0 :: chain_tokens ops)
                 = Ok (Token1 EOF, chain_tree (NumberNode v0) ops, [])).
  { rewrite expr_S.
    replace (List.length ops + 6 + 0)%nat
      with (S (S (S (S (S (List.length ops + 1)))))) by lia.
    rewrite (term_number _ _ _ _ _ Hnext
               (chain_lookahead_additive ops tok rest Hops Hnext)).
    cbn [bind].
    replace (S (S (S (S (S (List.length ops + 1))))))
      with (List.length ops + 6 + 0)%nat by lia.
    apply expr_while_chain; assumption. }
  rewrite (parse_eq_expr _ _ ltac:(rewrite Hrun; discriminate)). exact Hrun.
Qed.

Lemma additive_chain_on_three :
  parse [number 1; Token1 MINUS; number 2; Token1 PLUS; number 3]
  = Ok (Token1 EOF,
        BinaryOpNode (BinaryOpNode (literal 1) (Token1 MINUS) (literal 2))
          (Token1 PLUS) (literal 3),
        []).
Proof.
  exact (additive_chain_is_left_associative (Some (float_of_Z 1))
           [(Token1 MINUS, Some (float_of_Z 2));
            (Token1 PLUS, Some (float_of_Z 3))] eq_refl).
Defined.

(** X12: STAR and SLASH associate to the left in the same way. *)
Theorem multiplicative_chain_is_left_associative
    (v0 : pyval) (ops : list (Token * pyval)) :
  forallb (fun p => multiplicative (fst p)) ops = true ->
  parse (mkToken NUMBER v0 :: chain_tokens ops)
  = Ok (Token1 EOF, chain_tree (NumberNode v0) ops, []).
Proof.
  intros Hops.
  destruct (next_or_EOF_chain ops) as (tok & rest & Hnext & _).
  assert (Hrun : expr (S (S (List.length ops + 4 + 0)))
                   (mkToken NUMBER v0 :: chain_tokens ops)
                 = Ok (Token1 EOF, chain_tree (NumberNode v0) ops, [])).
  { rewrite expr_S, term_S.
    replace (List.length ops + 4 + 0)%nat
      with (S (S (S (List.length ops + 1)))) by lia.
    rewrite (factor_number _ _ _ _ _ Hnext
               (chain_lookahead_multiplicative ops tok rest Hops Hnext)).
    cbn [bind].
    replace (S (S (S (List.length ops + 1))))
      with (List.length ops + 4 + 0)%nat by lia.
    rewrite (term_while_chain ops _ 0 tok rest Hops Hnext). cbn [bind].
    replace (List.length ops + 4 + 0)%nat
      with (S (List.length ops + 3)) by lia.
    reflexivity. }
  rewrite (parse_eq_expr _ _ ltac:(rewrite Hrun; discriminate)). exact Hrun.
Qed.

Lemma multiplicative_chain_on_three :
  parse [number 8; Token1 SLASH; number 4; Token1 SLASH; number 2]
  = Ok (Token1 EOF,
        BinaryOpNode (BinaryOpNode (literal 8) (Token1 SLASH) (literal 4))
          (Token1 SLASH) (literal 2),
        []).
Proof.
  exact (multiplicative_chain_is_left_associative (Some (float_of_Z 8))
           [(Token1 SLASH, Some (float_of_Z 4));
            (Token1 SLASH, Some (float_of_Z 2))] eq_refl).
Defined.



(** X14: the three levels of precedence, whatever the numbers: STAR binds tighter
    than PLUS on either side, CARET tighter than STAR on either side, a sign
    applies to the factor it starts and not to the sum or product after it,
    and a sign may start the exponent. *)
Theorem precedence_levels (x y z : pyval) :
  let X := mkToken NUMBER x in
  let Y := mkToken NUMBER y in
  let Z := mkToken NUMBER z in
  let bin l op r := BinaryOpNode l (Token1 op) r in
  parse [X; Token1 PLUS; Y; Token1 STAR; Z]
  = Ok (Token1 EOF,
        bin (NumberNode x) PLUS (bin (NumberNode y) STAR (NumberNode z)), [])
  /\ parse [X; Token1 STAR; Y; Token1 PLUS; Z]
     = Ok (Token1 EOF,
           bin (bin (NumberNode x) STAR (NumberNode y)) PLUS (NumberNode z), [])
  /\ parse [X; Token1 STAR; Y; Token1 CARET; Z]
     = Ok (Token1 EOF,
           bin (NumberNode x) STAR (bin (NumberNode y) CARET (NumberNode z)), [])
  /\ parse [X; Token1 CARET; Y; Token1 STAR; Z]
     = Ok (Token1 EOF,
           bin (bin (NumberNode x) CARET (NumberNode y)) STAR (NumberNode z), [])
  /\ parse [Token1 MINUS; X; Token1 STAR; Y]
     = Ok (Token1 EOF,
           bin (UnaryOpNode (Token1 MINUS) (NumberNode x)) STAR (NumberNode y), [])
  /\ parse [X; Token1 CARET; Token1 MINUS; Y]
     = Ok (Token1 EOF,
           bin (NumberNode x) CARET (UnaryOpNode (Token1 MINUS) (NumberNode y)), []).
Proof. cbv zeta. repeat split. Qed.

(** ** The evaluator *)








(** X17: a division of two operands that evaluate to floats raises
    ZeroDivisionError exactly when the right one is a zero, of either sign,
    whatever the left one is; otherwise it gives the IEEE quotient, which may
    be an infinity or a NaN but is never an error. *)
Theorem division_raises_exactly_on_zero
    (l r : Node) (op : Token) (x y : float) :
  type op = SLASH ->
  visit l = Ok (Some x) -> visit r = Ok (Some y) ->
  visit (BinaryOpNode l op r)
  = if is_zero y then Raise ZeroDivisionError
    else Ok (Some (SFdiv prec emax x y)).
Proof.
  intros Hop Hl Hr. cbn [visit]. unfold visit_BinaryOpNode.
  rewrite Hop, Hl, Hr. cbn [bind py_arith]. unfold float_div.
  destruct (is_zero y); reflexivity.
Qed.

Lemma division_raises_on_minus_zero :
  visit (BinaryOpNode (BinaryOpNode (literal 1) (Token1 PLUS) (literal 2))
           (Token1 SLASH) (UnaryOpNode (Token1 MINUS) (literal 0)))
  = Raise ZeroDivisionError.
Proof.
  exact (division_raises_exactly_on_zero
           (BinaryOpNode (literal 1) (Token1 PLUS) (literal 2))
           (UnaryOpNode (Token1 MINUS) (literal 0)) (Token1 SLASH)
           (float_of_Z 3) (S754_zero true)
           eq_refl ltac:(vm_compute; reflexivity) eq_refl).
Defined.

(** ** The program *)

(** What [main] does on a text that is not empty. *)
Lemma main_nonempty (stdin : string) :
  stdin <> EmptyString ->
  main stdin
  = let trace := [Print_str prompt; Read_stdin] in
    match parse (generate_tokens (list_ascii_of_string stdin)) with
    | Ok (last_token, node, _) =>
        if negb (TokenType_eqb (type last_token) EOF)
        then (trace, Raise AssertionError)
        else
          match visit node with
          | Ok value => (trace ++ [Print_value value], Ok tt)
          | Raise e => (trace, Raise e)
          | OutOfFuel => (trace, OutOfFuel)
          | Unmodelled => (trace, Unmodelled)
          end
    | Raise e => (trace, Raise e)
    | OutOfFuel => (trace, OutOfFuel)
    | Unmodelled => (trace, Unmodelled)
    end.
Proof.
  intros Hne. destruct stdin as [| c rest]; [now elim Hne | reflexivity].
Qed.

Lemma parse_empty_text : parse (generate_tokens []) = Raise (Exception "Error").
Proof. reflexivity. Qed.




(** X20: the assert of [main] fails exactly when [expr] has returned with a
    NUMBER as its lookahead token: two operands with no operator between
    them. *)
Theorem assertion_fails_exactly_on_a_number (stdin : string) :
  snd (main stdin) = Raise AssertionError
  <-> exists tok node g,
        parse (generate_tokens (list_ascii_of_string stdin)) = Ok (tok, node, g)
        /\ type tok = NUMBER.
Proof.
  destruct (string_dec stdin EmptyString) as [-> | Hne].
  - split; [discriminate |]. intros (tok & node & g & Heq & _).
    cbn [list_ascii_of_string] in Heq. rewrite parse_empty_text in Heq.
    discriminate.
  - rewrite (main_nonempty stdin Hne). cbv zeta.
    pose proof (parse_generator_tree_or_error
                  (generate_tokens (list_ascii_of_string stdin))) as Htree.
    destruct (parse (generate_tokens (list_ascii_of_string stdin)))
      as [[[tok node] g] | e' | |] eqn:Hparse; cbn [snd].
    + destruct (parse_lookahead_cases _ _ _ _ Hparse) as [-> | [Hnum _]].
      * cbn [type TokenType_eqb negb].
        destruct Htree as [_ Hpay].
        pose proof (visit_float_or_arith_error node
                      (parse_generator_well_formed _ _ _ _ Hparse) Hpay) as Hv.
        split.
        -- destruct (visit node) as [[x |] | [] | |]; cbn in Hv;
             try contradiction; discriminate.
        -- intros (tok' & node' & g' & Heq & Hnum).
           injection Heq as <- _ _. discriminate.
      * rewrite Hnum. cbn [TokenType_eqb negb snd]. split; [| reflexivity].
        intros _. exists tok, node, g. split; [reflexivity | exact Hnum].
    + split.
      * intros Heq. injection Heq as ->.
        destruct Htree as [Herr | [i Hi]]; [discriminate |].
        destruct (resume_raises i _ Hi) as [c [Hc _]]. discriminate.
      * intros (tok & node & g & Heq & _). discriminate.
    + split; [discriminate |]. intros (tok & node & g & Heq & _). discriminate.
    + split; [discriminate |]. intros (tok & node & g & Heq & _). discriminate.
Qed.

Lemma assertion_fails_on_4_5 : snd (main "4 5") = Raise AssertionError.
Proof.
  apply (proj2 (assertion_fails_exactly_on_a_number "4 5")).
  exists (number 5), (literal 4), (AtNumber "5" []).
  split; [vm_compute; reflexivity | reflexivity].
Defined.

(** X21: on an input made of digits only, the program prints [float] of the whole
    input. *)
Theorem digits_only_input_prints_the_number (stdin : string) :
  stdin <> EmptyString ->
  all_digits (list_ascii_of_string stdin) = true ->
  main stdin
  = ([Print_str prompt; Read_stdin;
      Print_value (Some (float_of_str (list_ascii_of_string stdin)))],
     Ok tt).
Proof.
  intros Hne Hall.
  assert (Htext : list_ascii_of_string stdin <> [])
    by (destruct stdin; [now elim Hne | discriminate]).
  pose proof (parse_generator_list _ _ (lex_digits _ Htext Hall)) as Hrel.
  change (parse [mkToken NUMBER (Some (float_of_str (list_ascii_of_string stdin)))])
    with (@Ok (Token * Node * list Token)
            (Token1 EOF,
             NumberNode (Some (float_of_str (list_ascii_of_string stdin))), []))
    in Hrel.
  rewrite (main_nonempty stdin Hne). cbv zeta.
  destruct (parse (generate_tokens (list_ascii_of_string stdin)))
    as [[[tok node] g] | e | |]; cbn [result_rel] in Hrel; try contradiction.
  destruct Hrel as (Ht & Hn & _). cbn [fst snd] in Ht, Hn. subst tok node.
  reflexivity.
Qed.

Lemma digits_only_input_2024 :
  main "2024"
  = ([Print_str prompt; Read_stdin;
      Print_value (Some (float_of_str (list_ascii_of_string "2024")))],
     Ok tt).
Proof.
  exact (digits_only_input_prints_the_number "2024"
           ltac:(discriminate) eq_refl).
Defined.

(** X22: whitespace before the expression changes nothing: the program does on
    the longer input exactly what it does on the shorter one. *)
Theorem leading_whitespace_is_ignored (s : ascii) (stdin : string) :
  is_space s = true -> stdin <> EmptyString ->
  main (String s stdin) = main stdin.
Proof.
  intros Hs Hne.
  apply (main_same_parse resumes_alike); [discriminate | exact Hne |].
  cbn [list_ascii_of_string]. apply parse_leading_space. exact Hs.
Qed.

Lemma leading_whitespace_is_ignored_on_1_plus_2 :
  main (String " " "1+2") = main "1+2".
Proof.
  exact (leading_whitespace_is_ignored " " "1+2" eq_refl ltac:(discriminate)).
Defined.

(** X23: whitespace after the expression changes nothing either: the newline
    that ends a line of input is harmless, also after a number, where it is
    the character that stops the run of digits. *)
Theorem trailing_whitespace_is_ignored (s : ascii) (stdin : string) :
  is_space s = true -> stdin <> EmptyString ->
  main (stdin ++ String s EmptyString) = main stdin.
Proof.
  intros Hs Hne. symmetry.
  apply (main_same_parse (with_trailing s)); [exact Hne | |].
  - destruct stdin; [now elim Hne | discriminate].
  - rewrite list_ascii_of_string_app. cbn [list_ascii_of_string].
    apply parse_trailing_space. exact Hs.
Qed.

Lemma trailing_whitespace_is_ignored_on_1_plus_2 :
  main ("1+2" ++ String "010" EmptyString) = main "1+2".
Proof.
  exact (trailing_whitespace_is_ignored "010" "1+2" eq_refl ltac:(discriminate)).
Defined.
